(** * Interactive Bezier curve with spring physics: a shallow embedding

    The TypeScript sources (lib/bezier, lib/physics and the BezierCanvas
    component) compute on JavaScript numbers.  The functions are embedded
    once, over an interface [Number] that lists the numeric operations the
    sources use, and read at two instances:

    - [R_Number]: the real numbers, the reading in which the algebraic
      laws of the curve and of the integrator are stated;
    - [F64_Number]: IEEE-754 binary64 with round-to-nearest-even, the
      numbers a JavaScript engine computes with, built on the
      executable specification [SpecFloat] (no NaN payloads, which
      JavaScript cannot observe either).

    Loops whose counter is a number ([for (let i = 0; i <= steps; i++)])
    are embedded with fuel: [None] means the fuel ran out.

    The file has three parts: the embedding of the sources, the vocabulary
    of the statements, and the properties. *)

From Stdlib Require Import ZArith List Bool String Lia.
From Stdlib Require Import Reals Lra R_Ifp.
From Stdlib Require Import Floats.SpecFloat.
Import ListNotations.

Set Implicit Arguments.

(** ** The numeric interface *)

Declare Scope js_scope.
Delimit Scope js_scope with js.

Class Number (num : Type) : Type := {
  (** integer literal *)
  of_Z : Z -> num;
  (** decimal literal [m] divided by ten to the [k]: [0.016] is [decimal 16 3] *)
  decimal : Z -> nat -> num;
  (** [Math.PI] *)
  Math_PI : num;
  (** [a + b], [a - b], [a * b], [a / b], [a % b] *)
  num_add : num -> num -> num;
  num_sub : num -> num -> num;
  num_mul : num -> num -> num;
  num_div : num -> num -> num;
  num_rem : num -> num -> num;
  (** unary minus *)
  num_neg : num -> num;
  (** [Math.sqrt], [Math.min] *)
  Math_sqrt : num -> num;
  Math_min : num -> num -> num;
  (** [a < b], [a <= b], [a === b] *)
  num_ltb : num -> num -> bool;
  num_leb : num -> num -> bool;
  num_eqb : num -> num -> bool;
  (** the value counts as true in a condition ([x ? a : b], [x || y]) *)
  truthy : num -> bool
}.

Infix "+" := num_add : js_scope.
Infix "-" := num_sub : js_scope.
Infix "*" := num_mul : js_scope.
Infix "/" := num_div : js_scope.
Infix "mod" := num_rem : js_scope.
Notation "- a" := (num_neg a) : js_scope.
Infix "<?" := num_ltb : js_scope.
Infix "<=?" := num_leb : js_scope.
Infix "=?" := num_eqb : js_scope.
(** [a >= b] *)
Notation "a >=? b" := (num_leb b a) (at level 70) : js_scope.

(** ** Real numbers

    The reals have no NaN and no infinity: [a / 0] and [a % 0] are real
    numbers here, so statements over the reals are made where divisors
    are not zero. *)

(** Truncation toward zero, the integer quotient of [%]. *)
Definition Rtrunc (r : R) : Z :=
  if Rle_dec 0 r then Int_part r else Z.opp (Int_part (Ropp r)).

Definition Rrem (a b : R) : R := (a - b * IZR (Rtrunc (a / b)))%R.

Definition Rltb (a b : R) : bool := if Rlt_dec a b then true else false.
Definition Rleb (a b : R) : bool := if Rle_dec a b then true else false.
Definition Reqb (a b : R) : bool := if Req_dec_T a b then true else false.

#[export] Instance R_Number : Number R := {
  of_Z := IZR;
  decimal m k := (IZR m / IZR (10 ^ Z.of_nat k))%R;
  Math_PI := PI;
  num_add := Rplus;
  num_sub := Rminus;
  num_mul := Rmult;
  num_div := Rdiv;
  num_rem := Rrem;
  num_neg := Ropp;
  Math_sqrt := sqrt;
  Math_min := Rmin;
  num_ltb := Rltb;
  num_leb := Rleb;
  num_eqb := Reqb;
  truthy a := negb (Reqb a 0%R)
}.

(** ** IEEE-754 binary64 *)

Module F64.

Definition prec : Z := 53.
Definition emax : Z := 1024.

Definition t : Type := spec_float.

Definition NaN : t := S754_nan.

Definition of_Z (z : Z) : t := binary_normalize prec emax z 0 false.

Definition add : t -> t -> t := SFadd prec emax.
Definition sub : t -> t -> t := SFsub prec emax.
Definition mul : t -> t -> t := SFmul prec emax.
Definition div : t -> t -> t := SFdiv prec emax.
Definition sqrt : t -> t := SFsqrt prec emax.

(** A decimal literal is the double nearest to the written value; the
    correctly rounded quotient of two exactly represented integers is that
    double. *)
Definition decimal (m : Z) (k : nat) : t := div (of_Z m) (of_Z (10 ^ Z.of_nat k)).

(** [Math.PI], 0x400921FB54442D18. *)
Definition PI : t := S754_finite false 7074237752028440 (-51).

(** [n % d] (ECMAScript Number::remainder): the sign of the dividend, the
    quotient truncated toward zero, and an exact result. *)
Definition rem (n d : t) : t :=
  match n, d with
  | S754_nan, _ | _, S754_nan => S754_nan
  | S754_infinity _, _ => S754_nan
  | _, S754_infinity _ => n
  | _, S754_zero _ => S754_nan
  | S754_zero _, _ => n
  | S754_finite sn mn en, S754_finite _ md ed =>
      let e := Z.min en ed in
      let a := (Zpos mn * 2 ^ (en - e))%Z in
      let b := (Zpos md * 2 ^ (ed - e))%Z in
      match Z.rem a b with
      | Z0 => S754_zero sn
      | r => binary_normalize prec emax (if sn then Z.opp r else r) e false
      end
  end.

(** [Math.min]: NaN if either argument is NaN, and -0 below +0. *)
Definition min (a b : t) : t :=
  match a, b with
  | S754_nan, _ | _, S754_nan => S754_nan
  | _, _ =>
      if SFltb a b then a
      else if SFltb b a then b
      else match a with S754_zero true => a | _ => b end
  end.

Definition truthy (a : t) : bool :=
  match a with
  | S754_zero _ | S754_nan => false
  | _ => true
  end.

Definition is_nan (a : t) : bool :=
  match a with S754_nan => true | _ => false end.

Definition is_zero (a : t) : bool :=
  match a with S754_zero _ => true | _ => false end.

Definition is_finite (a : t) : bool :=
  match a with S754_zero _ | S754_finite _ _ _ => true | _ => false end.

(** A finite double: zero, subnormal or normal, in canonical form. *)
Definition finite (a : t) : bool := is_finite a && valid_binary prec emax a.

End F64.

#[export] Instance F64_Number : Number F64.t := {
  of_Z := F64.of_Z;
  decimal := F64.decimal;
  Math_PI := F64.PI;
  num_add := F64.add;
  num_sub := F64.sub;
  num_mul := F64.mul;
  num_div := F64.div;
  num_rem := F64.rem;
  num_neg := SFopp;
  Math_sqrt := F64.sqrt;
  Math_min := F64.min;
  num_ltb := SFltb;
  num_leb := SFleb;
  num_eqb := SFeqb;
  truthy := F64.truthy
}.

(** What the tie-break of the controller and the first tick of the
    scheduler rest on: no number is below itself, and zero counts as
    false in a condition. *)
Class LawfulNumber (num : Type) {N : Number num} : Prop := {
  ltb_irrefl : forall a : num, num_ltb a a = false;
  zero_falsy : truthy (of_Z 0) = false
}.

Arguments LawfulNumber num {N}.

(** ** lib/bezier *)

Section Bezier.

Context {num : Type} `{Number num}.
Local Open Scope js_scope.

Record Point : Type := mkPoint { x : num; y : num }.

(** [bezierPoint(p0, p1, p2, p3, t)] *)
Definition bezierPoint (p0 p1 p2 p3 : Point) (t : num) : Point :=
  let mt := of_Z 1 - t in
  let mt2 := mt * mt in
  let mt3 := mt2 * mt in
  let t2 := t * t in
  let t3 := t2 * t in
  {| x := mt3 * x p0 + of_Z 3 * mt2 * t * x p1 + of_Z 3 * mt * t2 * x p2 + t3 * x p3;
     y := mt3 * y p0 + of_Z 3 * mt2 * t * y p1 + of_Z 3 * mt * t2 * y p2 + t3 * y p3 |}.

(** [bezierTangent(p0, p1, p2, p3, t)], the derivative B'(t) *)
Definition bezierTangent (p0 p1 p2 p3 : Point) (t : num) : Point :=
  let mt := of_Z 1 - t in
  let mt2 := mt * mt in
  let t2 := t * t in
  {| x := of_Z 3 * mt2 * (x p1 - x p0) +
          of_Z 6 * mt * t * (x p2 - x p1) +
          of_Z 3 * t2 * (x p3 - x p2);
     y := of_Z 3 * mt2 * (y p1 - y p0) +
          of_Z 6 * mt * t * (y p2 - y p1) +
          of_Z 3 * t2 * (y p3 - y p2) |}.

(** [normalize(v)] *)
Definition normalize (v : Point) : Point :=
  let len := Math_sqrt (x v * x v + y v * y v) in
  if len =? of_Z 0 then {| x := of_Z 0; y := of_Z 0 |}
  else {| x := x v / len; y := y v / len |}.

(** [magnitude(v)] *)
Definition magnitude (v : Point) : num :=
  Math_sqrt (x v * x v + y v * y v).

(** [for (let i = i0; i <= bound; i += step) acc.push(body(i))]:
    the loop of the two samplers and of the grid. *)
Fixpoint for_le {B : Type} (fuel : nat) (i bound step : num)
    (body : num -> B) (acc : list B) : option (list B) :=
  match fuel with
  | O => None
  | S fuel' =>
      if i <=? bound
      then for_le fuel' (i + step) bound step body (acc ++ [body i])
      else Some acc
  end.

(** [sampleBezierCurve(p0, p1, p2, p3, steps)] *)
Definition sampleBezierCurve (fuel : nat) (p0 p1 p2 p3 : Point) (steps : num)
    : option (list Point) :=
  for_le fuel (of_Z 0) steps (of_Z 1)
    (fun i => let t := i / steps in bezierPoint p0 p1 p2 p3 t) [].

Record TangentData : Type := mkTangentData {
  point : Point;
  tangent : Point;
  normalizedTangent : Point
}.

(** [sampleTangents(p0, p1, p2, p3, count)] *)
Definition sampleTangents (fuel : nat) (p0 p1 p2 p3 : Point) (count : num)
    : option (list TangentData) :=
  for_le fuel (of_Z 0) count (of_Z 1)
    (fun i =>
       let t := i / count in
       let point := bezierPoint p0 p1 p2 p3 t in
       let tangent := bezierTangent p0 p1 p2 p3 t in
       let normalizedTangent := normalize tangent in
       {| point := point; tangent := tangent;
          normalizedTangent := normalizedTangent |}) [].

End Bezier.

Arguments Point num : clear implicits.
Arguments TangentData num : clear implicits.

(** ** lib/physics *)

Section Physics.

Context {num : Type} `{Number num}.
Local Open Scope js_scope.

Record SpringState : Type := mkSpringState {
  position : Point num;
  velocity : Point num;
  target : Point num
}.

Record SpringConfig : Type := mkSpringConfig {
  stiffness : num;
  damping : num
}.

Definition DEFAULT_SPRING_CONFIG : SpringConfig :=
  {| stiffness := of_Z 120; damping := of_Z 12 |}.

(** [createSpringState(initialPosition)] *)
Definition createSpringState (initialPosition : Point num) : SpringState :=
  {| position := {| x := x initialPosition; y := y initialPosition |};
     velocity := {| x := of_Z 0; y := of_Z 0 |};
     target := {| x := x initialPosition; y := y initialPosition |} |}.

(** [updateSpring(state, config, deltaTime)] *)
Definition updateSpring (state : SpringState) (config : SpringConfig)
    (deltaTime : num) : SpringState :=
  let position := position state in
  let velocity := velocity state in
  let target := target state in
  let stiffness := stiffness config in
  let damping := damping config in
  let displacementX := x position - x target in
  let displacementY := y position - y target in
  let accelerationX := - stiffness * displacementX - damping * x velocity in
  let accelerationY := - stiffness * displacementY - damping * y velocity in
  let newVelocity :=
    {| x := x velocity + accelerationX * deltaTime;
       y := y velocity + accelerationY * deltaTime |} in
  let newPosition :=
    {| x := x position + x newVelocity * deltaTime;
       y := y position + y newVelocity * deltaTime |} in
  {| position := newPosition; velocity := newVelocity; target := target |}.

(** [setSpringTarget(state, target)] *)
Definition setSpringTarget (state : SpringState) (target : Point num)
    : SpringState :=
  {| position := position state;
     velocity := velocity state;
     target := {| x := x target; y := y target |} |}.

(** [applyImpulse(state, impulse)] *)
Definition applyImpulse (state : SpringState) (impulse : Point num)
    : SpringState :=
  {| position := position state;
     velocity := {| x := x (velocity state) + x impulse;
                    y := y (velocity state) + y impulse |};
     target := target state |}.

(** [isSettled(state, threshold)]; [a ** 2] is the product [a * a]. *)
Definition isSettled (state : SpringState) (threshold : num) : bool :=
  let velocityMagnitude :=
    Math_sqrt (x (velocity state) * x (velocity state) +
               y (velocity state) * y (velocity state)) in
  let displacement :=
    Math_sqrt ((x (position state) - x (target state)) *
               (x (position state) - x (target state)) +
               (y (position state) - y (target state)) *
               (y (position state) - y (target state))) in
  (velocityMagnitude <? threshold) && (displacement <? threshold).

End Physics.

Arguments SpringState num : clear implicits.
Arguments SpringConfig num : clear implicits.

(** ** components/BezierCanvas *)

Local Open Scope string_scope.
Local Open Scope list_scope.

Module COLORS.
Definition background := "hsl(220, 20%, 6%)".
Definition grid := "hsl(220, 15%, 12%)".
Definition curve := "hsl(185, 90%, 60%)".
Definition curveGlow := "rgba(56, 227, 232, 0.3)".
Definition tangent := "hsl(185, 40%, 45%)".
Definition endpoint := "hsl(25, 90%, 55%)".
Definition controlPoint := "hsl(280, 70%, 60%)".
Definition controlLine := "hsla(280, 70%, 60%, 0.3)".
Definition text := "hsl(210, 20%, 90%)".
Definition textMuted := "hsl(215, 15%, 55%)".
End COLORS.

Section Canvas.

Context {num : Type} `{Number num}.
Local Open Scope js_scope.

(** The text of a [fillText] call: a literal, or the template [`${fps} FPS`]. *)
Inductive Text : Type :=
| Literal (s : string)
| FpsLabel (fps : num).

(** The calls the component makes on the 2D context, in order. *)
Inductive DrawOp : Type :=
| FillStyle (s : string)
| StrokeStyle (s : string)
| LineWidth (w : num)
| LineCap (s : string)
| LineJoin (s : string)
| SetLineDash (segments : list num)
| Font (s : string)
| TextAlign (s : string)
| FillRect (x0 y0 w h : num)
| BeginPath
| MoveTo (x0 y0 : num)
| LineTo (x0 y0 : num)
| Arc (x0 y0 radius startAngle endAngle : num)
| Stroke
| Fill
| FillText (text : Text) (x0 y0 : num).

(** [getBoundingClientRect()] of the container. *)
Record DOMRect : Type := mkDOMRect {
  left : num;
  top : num;
  width : num;
  height : num
}.

(** What the component reads from the page: the container's rectangle
    ([None] while [containerRef.current] is null), the canvas with its
    [width] and [height] ([None] while [canvasRef.current] is null), and
    whether [getContext('2d')] gives a context. *)
Record Host : Type := mkHost {
  container : option DOMRect;
  canvas : option (num * num);
  context2d : bool
}.

(** The refs and the state of the component. *)
Record Canvas : Type := mkCanvas {
  lastTimeRef : num;
  lastRenderTimeRef : num;
  p0Ref : Point num;
  p3Ref : Point num;
  spring1Ref : option (SpringState num);
  spring2Ref : option (SpringState num);
  baseP1Ref : Point num;
  baseP2Ref : Point num;
  fps : num;
  fpsCountRef : num;
  fpsTimeRef : num;
  frameIntervalRef : num
}.

(** The refs as [BezierCanvas({ targetFps })] creates them. *)
Definition BezierCanvas (targetFps : num) : Canvas :=
  {| lastTimeRef := of_Z 0;
     lastRenderTimeRef := of_Z 0;
     p0Ref := {| x := of_Z 0; y := of_Z 0 |};
     p3Ref := {| x := of_Z 0; y := of_Z 0 |};
     spring1Ref := None;
     spring2Ref := None;
     baseP1Ref := {| x := of_Z 0; y := of_Z 0 |};
     baseP2Ref := {| x := of_Z 0; y := of_Z 0 |};
     fps := of_Z 0;
     fpsCountRef := of_Z 0;
     fpsTimeRef := of_Z 0;
     frameIntervalRef := of_Z 1000 / targetFps |}.

(** The effect on [targetFps]: [frameIntervalRef.current = 1000 / targetFps]. *)
Definition setTargetFps (st : Canvas) (targetFps : num) : Canvas :=
  {| lastTimeRef := lastTimeRef st;
     lastRenderTimeRef := lastRenderTimeRef st;
     p0Ref := p0Ref st;
     p3Ref := p3Ref st;
     spring1Ref := spring1Ref st;
     spring2Ref := spring2Ref st;
     baseP1Ref := baseP1Ref st;
     baseP2Ref := baseP2Ref st;
     fps := fps st;
     fpsCountRef := fpsCountRef st;
     fpsTimeRef := fpsTimeRef st;
     frameIntervalRef := of_Z 1000 / targetFps |}.

(** [initializePositions(width, height)] *)
Definition initializePositions (st : Canvas) (width height : num) : Canvas :=
  let margin := of_Z 100 in
  let centerY := height / of_Z 2 in
  let p0 := {| x := margin; y := centerY |} in
  let p3 := {| x := width - margin; y := centerY |} in
  let third := (width - of_Z 2 * margin) / of_Z 3 in
  let baseP1 := {| x := margin + third; y := centerY - of_Z 150 |} in
  let baseP2 := {| x := margin + of_Z 2 * third; y := centerY + of_Z 150 |} in
  {| lastTimeRef := lastTimeRef st;
     lastRenderTimeRef := lastRenderTimeRef st;
     p0Ref := p0;
     p3Ref := p3;
     spring1Ref := Some (createSpringState baseP1);
     spring2Ref := Some (createSpringState baseP2);
     baseP1Ref := baseP1;
     baseP2Ref := baseP2;
     fps := fps st;
     fpsCountRef := fpsCountRef st;
     fpsTimeRef := fpsTimeRef st;
     frameIntervalRef := frameIntervalRef st |}.

(** [getDistance(p1, p2)]; [a ** 2] is the product [a * a]. *)
Definition getDistance (p1 p2 : Point num) : num :=
  Math_sqrt ((x p1 - x p2) * (x p1 - x p2) + (y p1 - y p2) * (y p1 - y p2)).

(** The two refs [handlePointerMove] assigns. *)
Definition setSprings (st : Canvas) (s1 s2 : SpringState num) : Canvas :=
  {| lastTimeRef := lastTimeRef st;
     lastRenderTimeRef := lastRenderTimeRef st;
     p0Ref := p0Ref st;
     p3Ref := p3Ref st;
     spring1Ref := Some s1;
     spring2Ref := Some s2;
     baseP1Ref := baseP1Ref st;
     baseP2Ref := baseP2Ref st;
     fps := fps st;
     fpsCountRef := fpsCountRef st;
     fpsTimeRef := fpsTimeRef st;
     frameIntervalRef := frameIntervalRef st |}.

(** [handlePointerMove(clientX, clientY)] *)
Definition handlePointerMove (host : Host) (st : Canvas) (clientX clientY : num)
    : Canvas :=
  match container host, spring1Ref st, spring2Ref st with
  | Some rect, Some spring1, Some spring2 =>
      let mousePos := {| x := clientX - left rect; y := clientY - top rect |} in
      let p1Pos := position spring1 in
      let p2Pos := position spring2 in
      let distToP1 := getDistance mousePos p1Pos in
      let distToP2 := getDistance mousePos p2Pos in
      let centerX := width rect / of_Z 2 in
      let centerY := height rect / of_Z 2 in
      let sensitivity := decimal 3 1 in
      let offset :=
        {| x := (clientX - left rect - centerX) * sensitivity;
           y := (clientY - top rect - centerY) * sensitivity |} in
      if distToP1 <? distToP2 then
        setSprings st
          (setSpringTarget spring1
             {| x := x (baseP1Ref st) + x offset * decimal 8 1;
                y := y (baseP1Ref st) + y offset * decimal 12 1 |})
          (setSpringTarget spring2 (baseP2Ref st))
      else
        setSprings st
          (setSpringTarget spring1 (baseP1Ref st))
          (setSpringTarget spring2
             {| x := x (baseP2Ref st) + x offset * decimal 8 1;
                y := y (baseP2Ref st) + y offset * decimal 8 1 |})
  | _, _, _ => st
  end.

(** [handleResize()]: the writes to the canvas element are the page's;
    the component's own state changes through [initializePositions]. *)
Definition handleResize (host : Host) (st : Canvas) : Canvas :=
  match canvas host, container host with
  | Some _, Some rect => initializePositions st (width rect) (height rect)
  | _, _ => st
  end.

(** [drawGrid(ctx, width, height)] *)
Definition drawGrid (fuel : nat) (width height : num) : option (list DrawOp) :=
  let gridSize := of_Z 40 in
  match for_le fuel (of_Z 0) width gridSize
          (fun x0 => [BeginPath; MoveTo x0 (of_Z 0); LineTo x0 height; Stroke]) [],
        for_le fuel (of_Z 0) height gridSize
          (fun y0 => [BeginPath; MoveTo (of_Z 0) y0; LineTo width y0; Stroke]) []
  with
  | Some vertical, Some horizontal =>
      Some ([StrokeStyle COLORS.grid; LineWidth (of_Z 1)]
            ++ List.concat vertical ++ List.concat horizontal)
  | _, _ => None
  end.

(** [drawControlHandles(ctx, p0, p1, p2, p3)] *)
Definition drawControlHandles (p0 p1 p2 p3 : Point num) : list DrawOp :=
  [StrokeStyle COLORS.controlLine; LineWidth (of_Z 2);
   SetLineDash [of_Z 5; of_Z 5];
   BeginPath; MoveTo (x p0) (y p0); LineTo (x p1) (y p1); Stroke;
   BeginPath; MoveTo (x p3) (y p3); LineTo (x p2) (y p2); Stroke;
   SetLineDash []].

(** [drawCurve(ctx, p0, p1, p2, p3)]; [None] also when [points[0]] is
    read from an empty array, which throws. *)
Definition drawCurve (fuel : nat) (p0 p1 p2 p3 : Point num)
    : option (list DrawOp) :=
  match sampleBezierCurve fuel p0 p1 p2 p3 (of_Z 150) with
  | Some (first :: rest) =>
      let path :=
        [BeginPath; MoveTo (x first) (y first)]
        ++ map (fun q => LineTo (x q) (y q)) rest ++ [Stroke] in
      Some ([StrokeStyle COLORS.curveGlow; LineWidth (of_Z 12);
             LineCap "round"; LineJoin "round"] ++ path
            ++ [StrokeStyle COLORS.curve; LineWidth (of_Z 3)] ++ path)
  | _ => None
  end.

(** The body of the [forEach] of [drawTangents]. *)
Definition drawTangent (tangentLength : num) (td : TangentData num)
    : list DrawOp :=
  let point := point td in
  let normalizedTangent := normalizedTangent td in
  [BeginPath; MoveTo (x point) (y point);
   LineTo (x point + x normalizedTangent * tangentLength)
          (y point + y normalizedTangent * tangentLength);
   Stroke;
   FillStyle COLORS.tangent;
   BeginPath;
   Arc (x point) (y point) (of_Z 3) (of_Z 0) (Math_PI * of_Z 2);
   Fill].

(** [drawTangents(ctx, p0, p1, p2, p3)] *)
Definition drawTangents (fuel : nat) (p0 p1 p2 p3 : Point num)
    : option (list DrawOp) :=
  match sampleTangents fuel p0 p1 p2 p3 (of_Z 8) with
  | Some tangents =>
      let tangentLength := of_Z 80 in
      Some ([StrokeStyle COLORS.tangent; LineWidth (of_Z 2); LineCap "round"]
            ++ List.concat (map (drawTangent tangentLength) tangents))
  | None => None
  end.

(** One marker of [drawControlPoints]: glow, disc and label. *)
Definition drawMarker (glow fill : string) (outer inner lift : num)
    (label : string) (p : Point num) : list DrawOp :=
  [FillStyle glow;
   BeginPath; Arc (x p) (y p) outer (of_Z 0) (Math_PI * of_Z 2); Fill;
   FillStyle fill;
   BeginPath; Arc (x p) (y p) inner (of_Z 0) (Math_PI * of_Z 2); Fill;
   FillStyle COLORS.text;
   Font "12px JetBrains Mono, monospace";
   TextAlign "center";
   FillText (Literal label) (x p) (y p - lift)].

(** [drawControlPoints(ctx, p0, p1, p2, p3)] *)
Definition drawControlPoints (p0 p1 p2 p3 : Point num) : list DrawOp :=
  drawMarker "rgba(245, 130, 49, 0.3)" COLORS.endpoint
    (of_Z 16) (of_Z 10) (of_Z 24) "P₀" p0
  ++ drawMarker "rgba(245, 130, 49, 0.3)" COLORS.endpoint
       (of_Z 16) (of_Z 10) (of_Z 24) "P₃" p3
  ++ drawMarker "rgba(167, 99, 212, 0.3)" COLORS.controlPoint
       (of_Z 14) (of_Z 8) (of_Z 20) "P₁" p1
  ++ drawMarker "rgba(167, 99, 212, 0.3)" COLORS.controlPoint
       (of_Z 14) (of_Z 8) (of_Z 20) "P₂" p2.

(** [drawInfo(ctx, width)], with the [fps] the callback closed over. *)
Definition drawInfo (fps0 width : num) : list DrawOp :=
  [FillStyle COLORS.textMuted;
   Font "13px Space Grotesk, sans-serif";
   TextAlign "left";
   FillText (Literal "Move mouse to interact with the curve") (of_Z 20) (of_Z 30);
   TextAlign "right";
   FillText (FpsLabel fps0) (width - of_Z 20) (of_Z 30)].

(** The drawing half of [animate]: clear, grid, handles, curve, tangents,
    markers, text. *)
Definition drawFrame (fuel : nat) (fps0 width height : num)
    (p0 p1 p2 p3 : Point num) : option (list DrawOp) :=
  match drawGrid fuel width height,
        drawCurve fuel p0 p1 p2 p3,
        drawTangents fuel p0 p1 p2 p3
  with
  | Some gridOps, Some curveOps, Some tangentOps =>
      Some ([FillStyle COLORS.background;
             FillRect (of_Z 0) (of_Z 0) width height]
            ++ gridOps
            ++ drawControlHandles p0 p1 p2 p3
            ++ curveOps
            ++ tangentOps
            ++ drawControlPoints p0 p1 p2 p3
            ++ drawInfo fps0 width)
  | _, _, _ => None
  end.

(** What one call of [animate] did: returned before any work (the refs
    are missing, or the frame interval has not elapsed), or ticked with
    the time step [dt] and drew ([None]: the drawing ran out of fuel). *)
Inductive Outcome : Type :=
| Skipped
| Ticked (dt : num) (drawn : option (list DrawOp)).

(** [animate(timestamp)].  The callback re-arms itself with
    [requestAnimationFrame] on every call, before anything else. *)
Definition animate (fuel : nat) (host : Host) (st : Canvas) (timestamp : num)
    : Canvas * Outcome :=
  match canvas host, context2d host, spring1Ref st, spring2Ref st with
  | Some (canvasWidth, canvasHeight), true, Some spring1, Some spring2 =>
      let elapsed := timestamp - lastRenderTimeRef st in
      if elapsed <? frameIntervalRef st then (st, Skipped)
      else
        let lastRenderTime := timestamp - (elapsed mod frameIntervalRef st) in
        let deltaTime :=
          if truthy (lastTimeRef st)
          then (timestamp - lastTimeRef st) / of_Z 1000
          else decimal 16 3 in
        let lastTime := timestamp in
        let dt := Math_min deltaTime (decimal 33 3) in
        let fpsCount := fpsCountRef st + of_Z 1 in
        let rollover := timestamp - fpsTimeRef st >=? of_Z 1000 in
        let spring1' := updateSpring spring1 DEFAULT_SPRING_CONFIG dt in
        let spring2' := updateSpring spring2 DEFAULT_SPRING_CONFIG dt in
        let p0 := p0Ref st in
        let p1 := position spring1' in
        let p2 := position spring2' in
        let p3 := p3Ref st in
        ({| lastTimeRef := lastTime;
            lastRenderTimeRef := lastRenderTime;
            p0Ref := p0Ref st;
            p3Ref := p3Ref st;
            spring1Ref := Some spring1';
            spring2Ref := Some spring2';
            baseP1Ref := baseP1Ref st;
            baseP2Ref := baseP2Ref st;
            fps := if rollover then fpsCount else fps st;
            fpsCountRef := if rollover then of_Z 0 else fpsCount;
            fpsTimeRef := if rollover then timestamp else fpsTimeRef st;
            frameIntervalRef := frameIntervalRef st |},
         Ticked dt
           (drawFrame fuel (fps st) canvasWidth canvasHeight p0 p1 p2 p3))
  | _, _, _, _ => (st, Skipped)
  end.

(** [Object.is(a, b)] on numbers, the comparison React makes between a
    new state and the one rendered, and between the dependencies of a
    hook from one render to the next: [===], except that NaN is itself
    and the two zeros differ. *)
Definition Object_is (a b : num) : bool :=
  if a =? b then negb (a =? of_Z 0) || (of_Z 1 / a =? of_Z 1 / b)
  else negb (a =? a) && negb (b =? b).

(** The setup effect, [useEffect(..., [handleResize, handlePointerMove,
    animate])]: it calls [handleResize()], then registers the listeners
    and requests the first frame. *)
Definition setupEffect (host : Host) (st : Canvas) : Canvas :=
  handleResize host st.

(** What React does after a call of [animate] and before the next frame.
    The call reached [setFps(fpsCountRef.current)] when it ticked and a
    second had passed on the meter.  If the count is not [Object.is] the
    [fps] rendered, the component renders again: [drawInfo] depends on
    [fps] and [animate] on [drawInfo], so both are new callbacks, and the
    setup effect, which depends on [animate], is cleaned up (the pending
    frame is cancelled) and runs again.  Otherwise nothing is rendered.
    [st] is the state before the call, [st1] and [o] what the call gave. *)
Definition commit (host : Host) (st : Canvas) (timestamp : num)
    (st1 : Canvas) (o : Outcome) : Canvas :=
  match o with
  | Skipped => st1
  | Ticked _ _ =>
      if (timestamp - fpsTimeRef st >=? of_Z 1000)
         && negb (Object_is (fpsCountRef st + of_Z 1) (fps st))
      then setupEffect host st1
      else st1
  end.

(** A run of the component over a sequence of animation-frame timestamps,
    on a page that stays as it is (the container keeps its rectangle and
    the canvas the size [handleResize] gives it): every frame calls
    [animate], and React commits before the next frame.  The result is
    the final state and what each call did. *)
Fixpoint run (fuel : nat) (host : Host) (st : Canvas) (timestamps : list num)
    : Canvas * list Outcome :=
  match timestamps with
  | [] => (st, [])
  | timestamp :: later =>
      let '(st1, o) := animate fuel host st timestamp in
      let '(st2, os) := run fuel host (commit host st timestamp st1 o) later in
      (st2, o :: os)
  end.

End Canvas.

Arguments Text num : clear implicits.
Arguments DrawOp num : clear implicits.
Arguments DOMRect num : clear implicits.
Arguments Host num : clear implicits.
Arguments Canvas num : clear implicits.
Arguments Outcome num : clear implicits.

Unset Implicit Arguments.

(** * Vocabulary of the statements *)

Section Vocabulary.

Context {num : Type} `{Number num}.
Local Open Scope js_scope.

(** [p.x === q.x && p.y === q.y] *)
Definition strictEqual (p q : Point num) : bool :=
  (x p =? x q) && (y p =? y q).

(** The sample [sampleTangents] takes at one parameter value. *)
Definition tangentAt (p0 p1 p2 p3 : Point num) (t : num) : TangentData num :=
  {| point := bezierPoint p0 p1 p2 p3 t;
     tangent := bezierTangent p0 p1 p2 p3 t;
     normalizedTangent := normalize (bezierTangent p0 p1 p2 p3 t) |}.

(** What [drawTangents] issues for a list of parameter values. *)
Definition tangentOps (p0 p1 p2 p3 : Point num) (ts : list num)
    : list (DrawOp num) :=
  [StrokeStyle COLORS.tangent; LineWidth (of_Z 2); LineCap "round"]
  ++ List.concat
       (map (fun t => drawTangent (of_Z 80) (tangentAt p0 p1 p2 p3 t)) ts).

(** The tangent segments among the calls: one [lineTo] each. *)
Definition tangentSegments (ops : list (DrawOp num)) : nat :=
  List.length
    (filter (fun op => match op with LineTo _ _ => true | _ => false end) ops).

(** [animate] gets past its guard: canvas, context and springs are there. *)
Definition ready (host : Host num) (st : Canvas num) : Prop :=
  (exists cv, canvas host = Some cv) /\ context2d host = true /\
  (exists s1, spring1Ref st = Some s1) /\ (exists s2, spring2Ref st = Some s2).

(** The time step of a call, if it ticked. *)
Definition tickStep (o : Outcome num) : option num :=
  match o with
  | Skipped => None
  | Ticked dt _ => Some dt
  end.

(** The frame scheduler as the specification words it: it holds the time
    of the last tick, the timestamp of the tick that fired before (none
    at first) and the target interval in milliseconds.  A signal at [t]
    is skipped while [t - lastTick < targetIntervalMs]; otherwise the
    tick fires, [lastTick] becomes
    [t - ((t - lastTick) mod targetIntervalMs)] and the time step is the
    minimum of the time since the previous tick and 33ms, in seconds, or
    of 16ms and 33ms on the first tick. *)
Record FrameScheduler : Type := mkFrameScheduler {
  lastTick : num;
  previousTickTimestamp : option num;
  targetIntervalMs : num
}.

Definition signal (s : FrameScheduler) (t : num) : FrameScheduler * option num :=
  if t - lastTick s <? targetIntervalMs s then (s, None)
  else
    ({| lastTick := t - ((t - lastTick s) mod targetIntervalMs s);
        previousTickTimestamp := Some t;
        targetIntervalMs := targetIntervalMs s |},
     Some (Math_min
             match previousTickTimestamp s with
             | Some previous => (t - previous) / of_Z 1000
             | None => decimal 16 3
             end
             (decimal 33 3))).

Fixpoint signals (s : FrameScheduler) (ts : list num) : list (option num) :=
  match ts with
  | [] => []
  | t :: later => snd (signal s t) :: signals (fst (signal s t)) later
  end.

(** Every timestamp at which a tick fires counts as true in a condition
    (it is neither zero nor NaN), so that the component's test
    [lastTimeRef.current ? ... : 0.016] tells a first tick from a later
    one. *)
Fixpoint firing_truthy (s : FrameScheduler) (ts : list num) : bool :=
  match ts with
  | [] => true
  | t :: later =>
      match snd (signal s t) with
      | Some _ => truthy t
      | None => true
      end && firing_truthy (fst (signal s t)) later
  end.

(** The scheduler the component's refs stand for. *)
Definition schedulerOf (st : Canvas num) : FrameScheduler :=
  {| lastTick := lastRenderTimeRef st;
     previousTickTimestamp :=
       if truthy (lastTimeRef st) then Some (lastTimeRef st) else None;
     targetIntervalMs := frameIntervalRef st |}.

End Vocabulary.

Arguments FrameScheduler num : clear implicits.

(** Straight-line interpolation between two points, with weight [s] on the
    second. *)
Definition lerp (a b : Point R) (s : R) : Point R :=
  {| x := x a + s * (x b - x a); y := y a + s * (y b - y a) |}%R.

(** Points with whole coordinates, the point whose coordinates are NaN,
    and the points whose coordinates are finite doubles. *)
Definition F64Point (a b : Z) : Point F64.t :=
  {| x := F64.of_Z a; y := F64.of_Z b |}.

Definition NaNPoint : Point F64.t := {| x := F64.NaN; y := F64.NaN |}.

Definition finitePoint (p : Point F64.t) : bool :=
  F64.finite (x p) && F64.finite (y p).

(** The same double, sign of zero included; the same list of doubles. *)
Definition SF_same (a b : F64.t) : bool :=
  match a, b with
  | S754_zero s, S754_zero s' => Bool.eqb s s'
  | S754_infinity s, S754_infinity s' => Bool.eqb s s'
  | S754_nan, S754_nan => true
  | S754_finite s m e, S754_finite s' m' e' =>
      Bool.eqb s s' && Pos.eqb m m' && Z.eqb e e'
  | _, _ => false
  end.

Fixpoint list_same (l l' : list F64.t) : bool :=
  match l, l' with
  | [] , [] => true
  | a :: r, a' :: r' => SF_same a a' && list_same r r'
  | _, _ => false
  end.

(** The doubles written [1e-200] and [1e200], and two vectors that are
    not zero: one whose squares underflow and one whose square overflows. *)
Definition tiny : F64.t := F64.decimal 1 200.
Definition huge : F64.t := F64.of_Z (10 ^ 200).

Definition tinyVector : Point F64.t := {| x := tiny; y := tiny |}.
Definition hugeVector : Point F64.t := {| x := F64.of_Z 0; y := huge |}.

(** For a bound of [n], the counter of a sampling loop goes through
    0, 1, ..., n, the first parameter value [0 / n] is 0 and the last
    [n / n] is 1. *)
Definition counters_ok (n : nat) : bool :=
  match for_le (S (S n)) (F64.of_Z 0) (F64.of_Z (Z.of_nat n)) (F64.of_Z 1)
          (fun j => j) [] with
  | Some l => list_same l (map (fun k => F64.of_Z (Z.of_nat k)) (seq 0 (S n)))
  | None => false
  end
  && SF_same (F64.div (F64.of_Z 0) (F64.of_Z (Z.of_nat n))) (F64.of_Z 0)
  && SF_same (F64.div (F64.of_Z (Z.of_nat n)) (F64.of_Z (Z.of_nat n)))
       (F64.of_Z 1).

(** An 800 by 600 surface, the component mounted on it at target rate
    60, and its control points and springs at rest. *)
Definition host800 : Host F64.t :=
  {| container := Some {| left := F64.of_Z 0; top := F64.of_Z 0;
                          width := F64.of_Z 800; height := F64.of_Z 600 |};
     canvas := Some (F64.of_Z 800, F64.of_Z 600);
     context2d := true |}.

Definition mounted800 : Canvas F64.t :=
  handleResize host800 (BezierCanvas (F64.of_Z 60)).

Definition restP0 : Point F64.t := F64Point 100 300.
Definition restP1 : Point F64.t := F64Point 300 150.
Definition restP2 : Point F64.t := F64Point 500 450.
Definition restP3 : Point F64.t := F64Point 700 300.

Definition spring800_1 : SpringState F64.t := createSpringState restP1.
Definition spring800_2 : SpringState F64.t := createSpringState restP2.





(** Target rate 60 before the first tick, and signals at 0, 5, 10, 17 and
    34 milliseconds. *)
Definition scheduler60 : FrameScheduler F64.t :=
  {| lastTick := F64.of_Z 0;
     previousTickTimestamp := None;
     targetIntervalMs := F64.div (F64.of_Z 1000) (F64.of_Z 60) |}.

Definition burst : list F64.t := map F64.of_Z [0; 5; 10; 17; 34]%Z.

(** The same surface and component over the reals, and a page whose
    canvas gives no 2D context. *)
Definition hostR800 : Host R :=
  {| container := Some {| left := 0%R; top := 0%R;
                          width := 800%R; height := 600%R |};
     canvas := Some (800%R, 600%R);
     context2d := true |}.

Definition mountedR800 : Canvas R := handleResize hostR800 (BezierCanvas 60%R).

Definition hostNoContext : Host R :=
  {| container := container hostR800; canvas := canvas hostR800;
     context2d := false |}.

(** The same component with spring 1 under way: at its base (300,150),
    moving, and aiming at (276,78). *)
Definition pulledR800 : Canvas R :=
  setSprings mountedR800
    {| position := mkPoint 300%R 150%R; velocity := mkPoint 30%R 0%R;
       target := mkPoint 276%R 78%R |}
    {| position := mkPoint 500%R 450%R; velocity := mkPoint 0%R 0%R;
       target := mkPoint 500%R 450%R |}.

(** A spring standing at (0,0) with its target at (100,0). *)
Definition springPulled : SpringState R :=
  {| position := mkPoint 0%R 0%R; velocity := mkPoint 0%R 0%R;
     target := mkPoint 100%R 0%R |}.

(** An arch over the reals, and the end of a segment. *)
Definition archP0 : Point R := mkPoint 0%R 0%R.
Definition archP1 : Point R := mkPoint 1%R 2%R.
Definition archP2 : Point R := mkPoint 3%R 2%R.
Definition archP3 : Point R := mkPoint 4%R 0%R.
Definition segmentEnd : Point R := mkPoint 4%R 2%R.

(** Vectors over the reals: sum, difference and multiple. *)
Definition vadd (a b : Point R) : Point R :=
  {| x := x a + x b; y := y a + y b |}%R.

Definition vsub (a b : Point R) : Point R :=
  {| x := x a - x b; y := y a - y b |}%R.

Definition vscale (k : R) (v : Point R) : Point R :=
  {| x := k * x v; y := k * y v |}%R.

(** The quantity a step without damping keeps: with [d = position - target],
    [stiffness * |d|^2 + |velocity|^2 - stiffness * dt * (d . velocity)]. *)
Definition shadowEnergy (config : SpringConfig R) (dt : R) (state : SpringState R)
    : R :=
  let dx := (x (position state) - x (target state))%R in
  let dy := (y (position state) - y (target state))%R in
  let vx := x (velocity state) in
  let vy := y (velocity state) in
  (stiffness config * (dx * dx + dy * dy) + (vx * vx + vy * vy)
   - stiffness config * dt * (dx * vx + dy * vy))%R.

(** The energy of a spring of unit mass, doubled:
    [stiffness * |d|^2 + |velocity|^2]. *)
Definition energy (config : SpringConfig R) (state : SpringState R) : R :=
  let dx := (x (position state) - x (target state))%R in
  let dy := (y (position state) - y (target state))%R in
  let vx := x (velocity state) in
  let vy := y (velocity state) in
  (stiffness config * (dx * dx + dy * dy) + (vx * vx + vy * vy))%R.

(** A spring of stiffness 120 without damping, standing at distance 1
    from its target. *)
Definition undamped120 : SpringConfig R := {| stiffness := 120%R; damping := 0%R |}.

Definition springAtOne : SpringState R :=
  {| position := mkPoint 1%R 0%R; velocity := mkPoint 0%R 0%R;
     target := mkPoint 0%R 0%R |}.

(** The state with its velocity multiplied by [k]. *)
Definition slowed (k : R) (state : SpringState R) : SpringState R :=
  {| position := position state;
     velocity := vscale k (velocity state);
     target := target state |}.

(** What the curve is drawn from: the endpoints, the base positions and
    the two springs. *)
Definition geometry {num : Type} (st : Canvas num) :=
  (p0Ref st, p3Ref st, baseP1Ref st, baseP2Ref st, spring1Ref st, spring2Ref st).

(** The [lineTo] and the [moveTo] calls among the calls on the context. *)
Definition lineToCalls {num : Type} (ops : list (DrawOp num)) : nat :=
  List.length
    (filter (fun op => match op with LineTo _ _ => true | _ => false end) ops).

Definition moveToCalls {num : Type} (ops : list (DrawOp num)) : nat :=
  List.length
    (filter (fun op => match op with MoveTo _ _ => true | _ => false end) ops).

(** A double that is not NaN and not below zero: a zero, a positive
    finite double or plus infinity. *)
Definition nonnegative (a : F64.t) : bool :=
  match a with
  | S754_zero _ | S754_finite false _ _ | S754_infinity false => true
  | _ => false
  end.

(** A double below zero: a negative finite double or minus infinity. *)
Definition negative (a : F64.t) : bool :=
  match a with
  | S754_finite true _ _ | S754_infinity true => true
  | _ => false
  end.

(** * Properties *)

(** ** The integrator, the controller and the scheduler, for any numbers *)

Section Generic.

Context {num : Type} `{Number num}.
Local Open Scope js_scope.

(** One step of [updateSpring], field by field. *)
Lemma updateSpring_fields
    (state : SpringState num) (config : SpringConfig num) (dt : num) :
  let ax := - stiffness config * (x (position state) - x (target state))
            - damping config * x (velocity state) in
  let ay := - stiffness config * (y (position state) - y (target state))
            - damping config * y (velocity state) in
  let vx' := x (velocity state) + ax * dt in
  let vy' := y (velocity state) + ay * dt in
  velocity (updateSpring state config dt) = {| x := vx'; y := vy' |} /\
  position (updateSpring state config dt) =
    {| x := x (position state) + vx' * dt;
       y := y (position state) + vy' * dt |} /\
  target (updateSpring state config dt) = target state.
Proof.
  cbv zeta. unfold updateSpring. cbn [velocity position target x y].
  repeat split.
Qed.


Lemma createSpringState_fields (q : Point num) :
  createSpringState q =
    {| position := q; velocity := {| x := of_Z 0; y := of_Z 0 |}; target := q |}.
Proof. destruct q; reflexivity. Qed.

Lemma handlePointerMove_endpoints
    (host : Host num) (st : Canvas num) (clientX clientY : num) :
  p0Ref (handlePointerMove host st clientX clientY) = p0Ref st /\
  p3Ref (handlePointerMove host st clientX clientY) = p3Ref st.
Proof.
  unfold handlePointerMove.
  destruct (container host), (spring1Ref st), (spring2Ref st);
    try (split; reflexivity).
  match goal with |- context [if ?c then _ else _] => destruct c end;
    split; reflexivity.
Qed.

Lemma animate_endpoints
    (fuel : nat) (host : Host num) (st : Canvas num) (timestamp : num) :
  p0Ref (fst (animate fuel host st timestamp)) = p0Ref st /\
  p3Ref (fst (animate fuel host st timestamp)) = p3Ref st.
Proof.
  unfold animate.
  destruct (canvas host) as [[cw ch]|], (context2d host),
    (spring1Ref st), (spring2Ref st); try (split; reflexivity).
  match goal with |- context [if ?c then _ else _] => destruct c end;
    split; reflexivity.
Qed.

(** C7. Pointer updates, ticks and a change of the target rate leave the
    endpoints P0 and P3 as they are; a resize (with the canvas and its
    container in place) recomputes the endpoints and the two base
    positions from the new width and height, and leaves each spring at
    its new base position, with its target there and with zero velocity,
    whatever the springs were doing before. *)
Theorem endpoints_move_only_on_resize (host : Host num) (st : Canvas num) :
  (forall clientX clientY,
     p0Ref (handlePointerMove host st clientX clientY) = p0Ref st /\
     p3Ref (handlePointerMove host st clientX clientY) = p3Ref st) /\
  (forall fuel timestamp,
     p0Ref (fst (animate fuel host st timestamp)) = p0Ref st /\
     p3Ref (fst (animate fuel host st timestamp)) = p3Ref st) /\
  (forall targetFps,
     p0Ref (setTargetFps st targetFps) = p0Ref st /\
     p3Ref (setTargetFps st targetFps) = p3Ref st) /\
  (forall cv rect,
     canvas host = Some cv ->
     container host = Some rect ->
     let st' := handleResize host st in
     let centerY := height rect / of_Z 2 in
     let third := (width rect - of_Z 2 * of_Z 100) / of_Z 3 in
     let baseP1 := {| x := of_Z 100 + third; y := centerY - of_Z 150 |} in
     let baseP2 :=
       {| x := of_Z 100 + of_Z 2 * third; y := centerY + of_Z 150 |} in
     let zero := {| x := of_Z 0; y := of_Z 0 |} in
     p0Ref st' = {| x := of_Z 100; y := centerY |} /\
     p3Ref st' = {| x := width rect - of_Z 100; y := centerY |} /\
     baseP1Ref st' = baseP1 /\
     baseP2Ref st' = baseP2 /\
     spring1Ref st' =
       Some {| position := baseP1; velocity := zero; target := baseP1 |} /\
     spring2Ref st' =
       Some {| position := baseP2; velocity := zero; target := baseP2 |}).
Proof.
  split; [|split; [|split]].
  - intros; apply handlePointerMove_endpoints.
  - intros; apply animate_endpoints.
  - intros; split; reflexivity.
  - intros cv rect Hcv Hrect. cbv zeta. unfold handleResize.
    rewrite Hcv, Hrect. unfold initializePositions.
    cbn [p0Ref p3Ref baseP1Ref baseP2Ref spring1Ref spring2Ref].
    repeat split.
Qed.


(** *** Loops *)

(** The accumulator a loop starts from is a prefix of its result. *)
Lemma for_le_acc (B : Type) (body : num -> B) (bound step : num) :
  forall (fuel : nat) (i : num) (acc : list B),
    for_le fuel i bound step body acc =
      option_map (app acc) (for_le fuel i bound step body []).
Proof.
  induction fuel as [|fuel IH]; intros i acc; [reflexivity|].
  cbn [for_le]. destruct (i <=? bound).
  - rewrite IH. rewrite (IH (i + step) ([] ++ [body i])).
    destruct (for_le fuel (i + step) bound step body []) as [l|];
      [|reflexivity].
    cbn. now rewrite <- app_assoc.
  - cbn. now rewrite app_nil_r.
Qed.

(** The elements a loop pushes are the images of the counter values it
    goes through. *)
Lemma for_le_map (B : Type) (body : num -> B) (bound step : num) :
  forall (fuel : nat) (i : num),
    for_le fuel i bound step body [] =
      option_map (map body) (for_le fuel i bound step (fun j => j) []).
Proof.
  induction fuel as [|fuel IH]; intros i; [reflexivity|].
  cbn [for_le]. destruct (i <=? bound); [|reflexivity].
  rewrite for_le_acc, IH.
  rewrite (for_le_acc _ (fun j => j) bound step fuel (i + step) ([] ++ [i])).
  destruct (for_le fuel (i + step) bound step (fun j => j) []) as [l|];
    reflexivity.
Qed.

(** More fuel does not change a result. *)
Lemma for_le_fuel (B : Type) (body : num -> B) (bound step : num) :
  forall (fuel fuel' : nat) (i : num) (acc l : list B),
    (fuel <= fuel')%nat ->
    for_le fuel i bound step body acc = Some l ->
    for_le fuel' i bound step body acc = Some l.
Proof.
  induction fuel as [|fuel IH]; intros fuel' i acc l Hle Hrun; [discriminate|].
  destruct fuel' as [|fuel']; [lia|].
  cbn [for_le] in *. destruct (i <=? bound); [|exact Hrun].
  apply IH with (fuel' := fuel') in Hrun; [exact Hrun|lia].
Qed.

Lemma sampleBezierCurve_map (fuel : nat) (p0 p1 p2 p3 : Point num) (steps : num) :
  sampleBezierCurve fuel p0 p1 p2 p3 steps =
    option_map (map (fun i => bezierPoint p0 p1 p2 p3 (i / steps)))
      (for_le fuel (of_Z 0) steps (of_Z 1) (fun j => j) []).
Proof. unfold sampleBezierCurve. now rewrite for_le_map. Qed.

(** [sampleTangents] maps [tangentAt] over the parameter values of its loop. *)
Lemma sampleTangents_map (fuel : nat) (p0 p1 p2 p3 : Point num) (count : num) :
  sampleTangents fuel p0 p1 p2 p3 count =
    option_map (map (fun i => tangentAt p0 p1 p2 p3 (i / count)))
      (for_le fuel (of_Z 0) count (of_Z 1) (fun j => j) []).
Proof. unfold sampleTangents. now rewrite for_le_map. Qed.

Lemma drawTangents_ops (fuel : nat) (p0 p1 p2 p3 : Point num)
    (counters : list num) :
  for_le fuel (of_Z 0) (of_Z 8) (of_Z 1) (fun j => j) [] = Some counters ->
  drawTangents fuel p0 p1 p2 p3 =
    Some (tangentOps p0 p1 p2 p3 (map (fun i => i / of_Z 8) counters)).
Proof.
  intros Hloop. unfold drawTangents. rewrite sampleTangents_map, Hloop.
  cbn [option_map]. unfold tangentOps. now rewrite !map_map.
Qed.

Lemma tangentSegments_tangentOps (p0 p1 p2 p3 : Point num) (ts : list num) :
  tangentSegments (tangentOps p0 p1 p2 p3 ts) = List.length ts.
Proof.
  unfold tangentSegments, tangentOps. cbn [app filter].
  induction ts as [|t ts IH]; [reflexivity|].
  cbn [map List.concat]. rewrite filter_app, length_app, IH. reflexivity.
Qed.

(** *** The frame scheduler *)

Lemma animate_skips (fuel : nat) (host : Host num) (st : Canvas num) (timestamp : num) :
  (timestamp - lastRenderTimeRef st <? frameIntervalRef st) = true ->
  animate fuel host st timestamp = (st, Skipped).
Proof.
  intros Hlt. unfold animate.
  destruct (canvas host) as [[cw ch]|], (context2d host),
    (spring1Ref st), (spring2Ref st); try reflexivity.
  rewrite Hlt. reflexivity.
Qed.

Lemma animate_fires (fuel : nat) (host : Host num) (st : Canvas num) (timestamp : num)
    (spring1 spring2 : SpringState num) :
  (exists cv, canvas host = Some cv) ->
  context2d host = true ->
  spring1Ref st = Some spring1 ->
  spring2Ref st = Some spring2 ->
  (timestamp - lastRenderTimeRef st <? frameIntervalRef st) = false ->
  let elapsed := timestamp - lastRenderTimeRef st in
  let dt :=
    Math_min (if truthy (lastTimeRef st)
              then (timestamp - lastTimeRef st) / of_Z 1000
              else decimal 16 3)
             (decimal 33 3) in
  let st' := fst (animate fuel host st timestamp) in
  (exists drawn, snd (animate fuel host st timestamp) = Ticked dt drawn) /\
  lastRenderTimeRef st' = timestamp - (elapsed mod frameIntervalRef st) /\
  lastTimeRef st' = timestamp /\
  frameIntervalRef st' = frameIntervalRef st /\
  spring1Ref st' = Some (updateSpring spring1 DEFAULT_SPRING_CONFIG dt) /\
  spring2Ref st' = Some (updateSpring spring2 DEFAULT_SPRING_CONFIG dt).
Proof.
  intros [[cw ch] Hcv] Hctx H1 H2 Hge. cbv zeta. unfold animate.
  rewrite Hcv, Hctx, H1, H2, Hge. cbn [fst snd].
  cbn [lastRenderTimeRef lastTimeRef spring1Ref spring2Ref frameIntervalRef].
  repeat split. eexists. reflexivity.
Qed.

(** One call of [animate] is one signal of the scheduler. *)
Lemma animate_refines_signal (fuel : nat) (host : Host num) (st : Canvas num)
    (timestamp : num) :
  ready host st ->
  match snd (signal (schedulerOf st) timestamp) with
  | Some _ => truthy timestamp = true
  | None => True
  end ->
  ready host (fst (animate fuel host st timestamp)) /\
  schedulerOf (fst (animate fuel host st timestamp)) =
    fst (signal (schedulerOf st) timestamp) /\
  tickStep (snd (animate fuel host st timestamp)) =
    snd (signal (schedulerOf st) timestamp).
Proof.
  intros Hready Htruthy.
  destruct Hready as (Hcv & Hctx & [s1 H1] & [s2 H2]).
  unfold signal in *. cbn [schedulerOf lastTick targetIntervalMs] in *.
  destruct (timestamp - lastRenderTimeRef st <? frameIntervalRef st) eqn:Hlt.
  - rewrite (animate_skips fuel host st timestamp Hlt). cbn [fst snd tickStep].
    repeat split; eauto.
  - pose proof (animate_fires fuel host st timestamp s1 s2 Hcv Hctx H1 H2 Hlt)
      as ([drawn Hd] & Hr & Ht & Hi & H1' & H2').
    cbv zeta in Hd, Hr, Ht, Hi, H1', H2'. cbn [snd] in Htruthy.
    split; [|split].
    + repeat split; eauto.
    + cbn [fst]. unfold schedulerOf. rewrite Hr, Ht, Hi, Htruthy. reflexivity.
    + rewrite Hd. unfold schedulerOf. cbn [snd tickStep previousTickTimestamp].
      destruct (truthy (lastTimeRef st)); reflexivity.
Qed.

(** The setup effect leaves the scheduler's refs alone and a ready
    component ready. *)
Lemma commit_scheduler (host : Host num) (st : Canvas num) (timestamp : num)
    (st1 : Canvas num) (o : Outcome num) :
  schedulerOf (commit host st timestamp st1 o) = schedulerOf st1.
Proof.
  unfold commit, setupEffect, handleResize.
  destruct o; [reflexivity|].
  match goal with |- context [if ?c then _ else _] => destruct c end;
    [|reflexivity].
  destruct (canvas host), (container host); reflexivity.
Qed.

Lemma commit_ready (host : Host num) (st : Canvas num) (timestamp : num)
    (st1 : Canvas num) (o : Outcome num) :
  ready host st1 -> ready host (commit host st timestamp st1 o).
Proof.
  intros Hready. unfold commit, setupEffect, handleResize.
  destruct o; [exact Hready|].
  match goal with |- context [if ?c then _ else _] => destruct c end;
    [|exact Hready].
  destruct (canvas host) eqn:Ec, (container host) eqn:Er; try exact Hready.
  destruct Hready as (Hcv & Hctx & _ & _). unfold ready. rewrite Ec.
  cbn [initializePositions spring1Ref spring2Ref]. repeat split; eauto.
Qed.

Lemma run_refines_signals (fuel : nat) (host : Host num) (timestamps : list num) :
  forall st : Canvas num,
    ready host st ->
    firing_truthy (schedulerOf st) timestamps = true ->
    map tickStep (snd (run fuel host st timestamps)) =
      signals (schedulerOf st) timestamps.
Proof.
  induction timestamps as [|t later IH]; intros st Hready Hok; [reflexivity|].
  cbn [firing_truthy] in Hok. apply andb_prop in Hok as [Hnow Hlater].
  destruct (animate_refines_signal fuel host st t Hready) as (Hr & Hs & Ho).
  { destruct (snd (signal (schedulerOf st) t)); [exact Hnow|exact I]. }
  cbn [run signals].
  destruct (animate fuel host st t) as [st1 o] eqn:Ea. cbn [fst snd] in *.
  specialize (IH (commit host st t st1 o) (commit_ready host st t st1 o Hr)).
  rewrite commit_scheduler, Hs in IH. specialize (IH Hlater).
  destruct (run fuel host (commit host st t st1 o) later) as [st2 os] eqn:Er.
  cbn [fst snd] in *.
  cbn [map]. now rewrite Ho, IH.
Qed.

(** A component mounted on a page with canvas, context and container,
    before its first tick. *)
Lemma mounted_ready (host : Host num) (targetFps : num) :
  (exists cv, canvas host = Some cv) ->
  context2d host = true ->
  (exists rect, container host = Some rect) ->
  ready host (handleResize host (BezierCanvas targetFps)).
Proof.
  intros [cv Hcv] Hctx [rect Hrect]. unfold ready, handleResize.
  rewrite Hcv, Hrect. cbn. repeat split; eauto.
Qed.

Lemma mounted_scheduler `{!LawfulNumber num} (host : Host num) (targetFps : num) :
  schedulerOf (handleResize host (BezierCanvas targetFps)) =
    {| lastTick := of_Z 0;
       previousTickTimestamp := None;
       targetIntervalMs := of_Z 1000 / targetFps |}.
Proof.
  unfold handleResize.
  destruct (canvas host), (container host); unfold schedulerOf; cbn;
    rewrite zero_falsy; reflexivity.
Qed.

End Generic.

(** ** Over the real numbers *)

Section Reals.

Local Open Scope R_scope.

Lemma Rltb_true (a b : R) : Rltb a b = true <-> a < b.
Proof. unfold Rltb; destruct (Rlt_dec a b); split; intros; try easy. Qed.

Lemma Rltb_false (a b : R) : Rltb a b = false <-> b <= a.
Proof.
  unfold Rltb; destruct (Rlt_dec a b); split; intros; try easy; lra.
Qed.

Lemma Rleb_true (a b : R) : Rleb a b = true <-> a <= b.
Proof. unfold Rleb; destruct (Rle_dec a b); split; intros; try easy. Qed.

Lemma Rleb_false (a b : R) : Rleb a b = false <-> b < a.
Proof.
  unfold Rleb; destruct (Rle_dec a b); split; intros; try easy; lra.
Qed.

Lemma Reqb_true (a b : R) : Reqb a b = true <-> a = b.
Proof. unfold Reqb; destruct (Req_dec_T a b); split; intros; try easy. Qed.

Lemma Reqb_false (a b : R) : Reqb a b = false <-> a <> b.
Proof. unfold Reqb; destruct (Req_dec_T a b); split; intros; try easy. Qed.

#[export] Instance R_Lawful : LawfulNumber R.
Proof.
  constructor.
  - intros a. apply Rltb_false. apply Rle_refl.
  - cbn. apply negb_false_iff. now apply Reqb_true.
Qed.

Lemma Point_eq (a b : Point R) : x a = x b -> y a = y b -> a = b.
Proof. destruct a, b; cbn; intros -> ->; reflexivity. Qed.

(** *** The curve *)

Lemma bezierPoint_at_0 (p0 p1 p2 p3 : Point R) : bezierPoint p0 p1 p2 p3 0 = p0.
Proof. apply Point_eq; unfold bezierPoint; cbn; ring. Qed.

Lemma bezierPoint_at_1 (p0 p1 p2 p3 : Point R) : bezierPoint p0 p1 p2 p3 1 = p3.
Proof. apply Point_eq; unfold bezierPoint; cbn; ring. Qed.

(** The weight is not the parameter itself: a quarter of the way in [t]
    is 5/32 of the way along the segment. *)
Remark bezierPoint_collapsed_quarter :
  bezierPoint (mkPoint 0 0) (mkPoint 0 0) (mkPoint 32 0) (mkPoint 32 0) (1 / 4)
  = mkPoint 5 0.
Proof. apply Point_eq; unfold bezierPoint; cbn; field. Qed.

(** C8, as stated, fails: with P1 = P0 = (0,0) and P2 = P3 = (32,0) the
    curve point at [t = 1/4] is (5,0), while the straight-line
    interpolation between P0 and P3 at 1/4 is (8,0). *)
Lemma bezierPoint_collapsed_not_linear :
  bezierPoint (mkPoint 0 0) (mkPoint 0 0) (mkPoint 32 0) (mkPoint 32 0) (1 / 4)
  = mkPoint 5 0 /\
  lerp (mkPoint 0 0) (mkPoint 32 0) (1 / 4) = mkPoint 8 0 /\
  bezierPoint (mkPoint 0 0) (mkPoint 0 0) (mkPoint 32 0) (mkPoint 32 0) (1 / 4)
  <> lerp (mkPoint 0 0) (mkPoint 32 0) (1 / 4).
Proof.
  assert (Hl : lerp (mkPoint 0 0) (mkPoint 32 0) (1 / 4) = mkPoint 8 0)
    by (apply Point_eq; unfold lerp; cbn; field).
  split; [exact bezierPoint_collapsed_quarter|]. split; [exact Hl|].
  rewrite bezierPoint_collapsed_quarter, Hl. intros Heq.
  apply (f_equal x) in Heq. cbn in Heq. lra.
Qed.

(** C8, amended. With P1 = P0 and P2 = P3 the curve point at any [t] in
    [0,1] lies on the straight segment from P0 to P3: it is
    [lerp P0 P3 s] for the weight [s = 3t^2 - 2t^3], which lies in [0,1].
    It is the straight-line interpolation at [t] itself exactly when [t]
    is 0, 1/2 or 1, or P0 = P3. *)
Theorem bezierPoint_collapsed_is_lerp (p0 p1 p2 p3 : Point R) (t : R) :
  0 <= t <= 1 -> p1 = p0 -> p2 = p3 ->
  let s := 3 * t * t - 2 * t * t * t in
  0 <= s <= 1 /\
  bezierPoint p0 p1 p2 p3 t = lerp p0 p3 s /\
  (bezierPoint p0 p1 p2 p3 t = lerp p0 p3 t <->
   p0 = p3 \/ t = 0 \/ t = 1 / 2 \/ t = 1).
Proof.
  intros [Ht0 Ht1] -> ->. cbv zeta.
  assert (Hs : bezierPoint p0 p0 p3 p3 t =
               lerp p0 p3 (3 * t * t - 2 * t * t * t))
    by (apply Point_eq; unfold bezierPoint, lerp; cbn; ring).
  split; [|split; [exact Hs|]].
  - assert (0 <= t * t) by nra.
    assert (0 <= (1 - t) * (1 - t)) by nra.
    split; nra.
  - rewrite Hs. split.
    + intros Heq.
      assert (Hx : (3 * t * t - 2 * t * t * t - t) * (x p3 - x p0) = 0).
      { apply (f_equal x) in Heq. unfold lerp in Heq. cbn in Heq.
        ring_simplify. ring_simplify in Heq. lra. }
      assert (Hy : (3 * t * t - 2 * t * t * t - t) * (y p3 - y p0) = 0).
      { apply (f_equal y) in Heq. unfold lerp in Heq. cbn in Heq.
        ring_simplify. ring_simplify in Heq. lra. }
      destruct (Req_dec (3 * t * t - 2 * t * t * t - t) 0) as [Hz|Hnz].
      * right.
        assert (Hf : t * ((2 * t - 1) * (t - 1)) = 0)
          by (rewrite <- Ropp_0, <- Hz; ring).
        apply Rmult_integral in Hf as [Hf|Hf]; [now left|].
        apply Rmult_integral in Hf as [Hf|Hf]; right; [left|right]; lra.
      * left.
        apply Rmult_integral in Hx as [Hx|Hx]; [contradiction|].
        apply Rmult_integral in Hy as [Hy|Hy]; [contradiction|].
        apply Point_eq; lra.
    + intros [ <- | [ -> | [ -> | -> ] ] ];
        apply Point_eq; unfold lerp; cbn; field.
Qed.

(** *** The samplers *)

(** The counting loop: from [k] up to [n] in steps of one. *)
Lemma for_le_count (B : Type) (body : R -> B) (n d : nat) :
  forall (k : nat) (acc : list B) (fuel : nat),
    (k + d = S n)%nat -> (d < fuel)%nat ->
    for_le fuel (INR k) (INR n) 1 body acc =
      Some (acc ++ map (fun j => body (INR j)) (seq k d)).
Proof.
  induction d as [|d IH]; intros k acc fuel Hk Hfuel.
  - destruct fuel as [|fuel]; [lia|]. cbn.
    replace (Rleb (INR k) (INR n)) with false.
    + now rewrite app_nil_r.
    + symmetry. apply Rleb_false. apply lt_INR. lia.
  - destruct fuel as [|fuel]; [lia|]. cbn [for_le].
    change (num_leb (INR k) (INR n)) with (Rleb (INR k) (INR n)).
    replace (Rleb (INR k) (INR n)) with true.
    + change (num_add (INR k) 1) with (INR k + 1).
      rewrite <- S_INR. rewrite IH by lia.
      cbn [seq map]. now rewrite <- app_assoc.
    + symmetry. apply Rleb_true. apply le_INR. lia.
Qed.

Lemma counters_R (n fuel : nat) :
  (S n < fuel)%nat ->
  for_le fuel (of_Z 0) (INR n) (of_Z 1) (fun j => j) [] =
    Some (map INR (seq 0 (S n))).
Proof.
  intros Hfuel. change (of_Z 0) with (INR 0). change (of_Z 1) with 1.
  now rewrite (for_le_count _ (fun j => j) n (S n) 0%nat) by lia.
Qed.

Lemma sampleBezierCurve_count (p0 p1 p2 p3 : Point R) (n fuel : nat) :
  (S n < fuel)%nat ->
  sampleBezierCurve fuel p0 p1 p2 p3 (INR n) =
    Some (map (fun k => bezierPoint p0 p1 p2 p3 (INR k / INR n)) (seq 0 (S n))).
Proof.
  intros Hfuel. rewrite sampleBezierCurve_map, counters_R by exact Hfuel.
  cbn [option_map]. now rewrite map_map.
Qed.

Lemma sampleTangents_count (p0 p1 p2 p3 : Point R) (n fuel : nat) :
  (S n < fuel)%nat ->
  sampleTangents fuel p0 p1 p2 p3 (INR n) =
    Some (map (fun k => tangentAt p0 p1 p2 p3 (INR k / INR n)) (seq 0 (S n))).
Proof.
  intros Hfuel. rewrite sampleTangents_map, counters_R by exact Hfuel.
  cbn [option_map]. now rewrite map_map.
Qed.

Lemma drawTangents_R (p0 p1 p2 p3 : Point R) (fuel : nat) :
  (10 <= fuel)%nat ->
  drawTangents fuel p0 p1 p2 p3 =
    Some (tangentOps p0 p1 p2 p3 (map (fun k => INR k / 8) (seq 0 9))).
Proof.
  intros Hfuel.
  rewrite (drawTangents_ops fuel p0 p1 p2 p3 (map INR (seq 0 9))).
  - now rewrite map_map.
  - change (of_Z 8) with (IZR (Z.of_nat 8)). rewrite <- INR_IZR_INZ.
    apply counters_R. lia.
Qed.

Lemma sampleBezierCurve_whole_steps (p0 p1 p2 p3 : Point R) (n fuel : nat) :
  (1 <= n)%nat -> (S n < fuel)%nat ->
  exists points,
    sampleBezierCurve fuel p0 p1 p2 p3 (of_Z (Z.of_nat n)) = Some points /\
    List.length points = S n /\
    (forall k, (k <= n)%nat ->
       nth_error points k = Some (bezierPoint p0 p1 p2 p3 (INR k / INR n))) /\
    nth_error points 0 = Some p0 /\
    nth_error points n = Some p3.
Proof.
  intros Hn Hfuel.
  assert (Hnth : forall k, (k <= n)%nat ->
            nth_error (map (fun k => bezierPoint p0 p1 p2 p3 (INR k / INR n))
                         (seq 0 (S n))) k
            = Some (bezierPoint p0 p1 p2 p3 (INR k / INR n))).
  { intros k Hk. rewrite nth_error_map, nth_error_seq.
    replace (k <? S n)%nat with true by (symmetry; apply Nat.ltb_lt; lia).
    reflexivity. }
  exists (map (fun k => bezierPoint p0 p1 p2 p3 (INR k / INR n)) (seq 0 (S n))).
  change (of_Z (Z.of_nat n)) with (IZR (Z.of_nat n)). rewrite <- INR_IZR_INZ.
  assert (Hn0 : INR n <> 0) by (apply not_0_INR; lia).
  split; [now apply sampleBezierCurve_count|].
  split; [now rewrite length_map, length_seq|].
  split; [exact Hnth|]. split.
  - rewrite Hnth by lia. f_equal.
    replace (INR 0 / INR n) with 0 by (cbn; field; exact Hn0).
    apply bezierPoint_at_0.
  - rewrite Hnth by lia. f_equal.
    replace (INR n / INR n) with 1 by (field; exact Hn0).
    apply bezierPoint_at_1.
Qed.

(** *** [normalize] *)

Lemma magnitude_zero_iff (v : Point R) :
  magnitude v = 0 <-> x v = 0 /\ y v = 0.
Proof.
  unfold magnitude; cbn. split.
  - intros Hs. apply sqrt_eq_0 in Hs; [|nra]. split; nra.
  - intros [-> ->]. replace (0 * 0 + 0 * 0) with 0 by ring. apply sqrt_0.
Qed.

Lemma magnitude_zero_point (v : Point R) :
  magnitude v = 0 <-> v = mkPoint 0 0.
Proof.
  rewrite magnitude_zero_iff. split.
  - intros [Hx Hy]. now apply Point_eq.
  - intros ->. split; reflexivity.
Qed.

Lemma magnitude_nonneg (v : Point R) : 0 <= magnitude v.
Proof. unfold magnitude; cbn. apply sqrt_pos. Qed.

Lemma magnitude_sqr (v : Point R) :
  magnitude v * magnitude v = x v * x v + y v * y v.
Proof. unfold magnitude; cbn. apply sqrt_sqrt. nra. Qed.

Lemma normalize_cases (v : Point R) :
  (magnitude v = 0 /\ normalize v = mkPoint 0 0) \/
  (magnitude v <> 0 /\
   normalize v = mkPoint (x v / magnitude v) (y v / magnitude v)).
Proof.
  unfold normalize, magnitude. cbn.
  destruct (Reqb (sqrt (x v * x v + y v * y v)) 0) eqn:E.
  - left. split; [now apply Reqb_true|reflexivity].
  - right. split; [now apply Reqb_false|reflexivity].
Qed.

Lemma normalize_zero_iff (v : Point R) :
  normalize v = mkPoint 0 0 <-> magnitude v = 0.
Proof.
  split.
  - intros Hn. destruct (normalize_cases v) as [[Hm _]|[Hm Heq]]; [exact Hm|].
    rewrite Heq in Hn. injection Hn as Hx Hy.
    apply magnitude_zero_iff. split.
    + apply (Rmult_eq_compat_r (magnitude v)) in Hx.
      unfold Rdiv in Hx. rewrite Rmult_assoc, Rinv_l in Hx by exact Hm. lra.
    + apply (Rmult_eq_compat_r (magnitude v)) in Hy.
      unfold Rdiv in Hy. rewrite Rmult_assoc, Rinv_l in Hy by exact Hm. lra.
  - intros Hm. destruct (normalize_cases v) as [[_ Heq]|[Hm' _]]; easy.
Qed.

Lemma normalize_unit (v : Point R) :
  magnitude v <> 0 ->
  magnitude (normalize v) = 1 /\
  x v = magnitude v * x (normalize v) /\
  y v = magnitude v * y (normalize v).
Proof.
  intros Hm. destruct (normalize_cases v) as [[Hm0 _]|[_ Heq]]; [easy|].
  rewrite Heq. cbn [x y]. split; [|split; field; exact Hm].
  pose proof (magnitude_sqr v) as Hsq.
  remember (magnitude v) as m eqn:Em.
  unfold magnitude. cbn.
  replace (x v / m * (x v / m) + y v / m * (y v / m))
    with ((x v * x v + y v * y v) / (m * m)) by (field; exact Hm).
  rewrite <- Hsq.
  replace (m * m / (m * m)) with 1 by (field; exact Hm).
  apply sqrt_1.
Qed.

Lemma magnitude_3_4 : magnitude (mkPoint 3 4) = 5.
Proof.
  unfold magnitude. cbn.
  replace (3 * 3 + 4 * 4) with (5 * 5) by ring.
  apply sqrt_square. lra.
Qed.

Lemma normalize_3_4_R :
  normalize (mkPoint 3 4) = mkPoint (decimal 6 1) (decimal 8 1).
Proof.
  destruct (normalize_cases (mkPoint 3 4)) as [[Hm _]|[_ ->]].
  - rewrite magnitude_3_4 in Hm. lra.
  - rewrite magnitude_3_4. apply Point_eq; cbn; field.
Qed.

(** *** The integrator *)

(** A step of no time changes nothing. *)
Lemma updateSpring_zero_step (state : SpringState R) (config : SpringConfig R) :
  updateSpring state config 0 = state.
Proof.
  destruct state as [[px py] [vx vy] tgt]. unfold updateSpring. cbn.
  f_equal; apply Point_eq; cbn; ring.
Qed.

(** The new position already feels the acceleration of the step: it is
    [p + v dt + a dt^2], where explicit Euler would give [p + v dt]. *)
Lemma updateSpring_position (state : SpringState R) (config : SpringConfig R)
    (dt : R) :
  let ax := - stiffness config * (x (position state) - x (target state))
            - damping config * x (velocity state) in
  let ay := - stiffness config * (y (position state) - y (target state))
            - damping config * y (velocity state) in
  x (position (updateSpring state config dt)) =
    x (position state) + x (velocity state) * dt + ax * dt * dt /\
  y (position (updateSpring state config dt)) =
    y (position state) + y (velocity state) * dt + ay * dt * dt.
Proof. cbv zeta. unfold updateSpring. cbn. split; ring. Qed.

(** *** The scheduler *)

Lemma Rtrunc_nonneg (r : R) : 0 <= r -> 0 <= IZR (Rtrunc r) <= r.
Proof.
  intros Hr. unfold Rtrunc. destruct (Rle_dec 0 r) as [_|Hn]; [|easy].
  destruct (base_Int_part r) as [Hle Hgt]. split; [|exact Hle].
  apply IZR_le. apply Z.lt_succ_r. apply lt_IZR.
  rewrite succ_IZR. lra.
Qed.

Lemma Rrem_bounds (a b : R) : 0 <= a -> 0 < b -> 0 <= Rrem a b <= a.
Proof.
  intros Ha Hb. unfold Rrem.
  assert (Hq : 0 <= a / b).
  { apply Rmult_le_pos; [exact Ha|]. left. now apply Rinv_0_lt_compat. }
  destruct (Rtrunc_nonneg (a / b) Hq) as [H0 Hle].
  assert (b * IZR (Rtrunc (a / b)) <= a).
  { replace a with (b * (a / b)) at 2 by (field; lra).
    apply Rmult_le_compat_l; lra. }
  assert (0 <= b * IZR (Rtrunc (a / b))) by (apply Rmult_le_pos; lra).
  lra.
Qed.

(** A tick fires only at a positive timestamp, and the time of the last
    tick never drops below zero. *)
Lemma firing_truthy_R (ts : list R) :
  forall s : FrameScheduler R,
    0 <= lastTick s -> 0 < targetIntervalMs s -> firing_truthy s ts = true.
Proof.
  induction ts as [|t later IH]; intros s Hlast Hint; [reflexivity|].
  cbn [firing_truthy]. unfold signal.
  change (num_ltb (num_sub t (lastTick s)) (targetIntervalMs s))
    with (Rltb (t - lastTick s) (targetIntervalMs s)).
  destruct (Rltb (t - lastTick s) (targetIntervalMs s)) eqn:Hlt; cbn [fst snd].
  - now apply IH.
  - apply Rltb_false in Hlt. apply andb_true_intro. split.
    + cbn. apply negb_true_iff. apply Reqb_false. lra.
    + apply IH; cbn [lastTick targetIntervalMs]; [|exact Hint].
      change (0 <= t - Rrem (t - lastTick s) (targetIntervalMs s)).
      destruct (Rrem_bounds (t - lastTick s) (targetIntervalMs s)); lra.
Qed.

End Reals.

(** C1. One step of [updateSpring] is semi-implicit Euler, for any state,
    configuration and time step: the acceleration is
    [-stiffness * (position - target) - damping * velocity] on each axis,
    the velocity is advanced first, the position is advanced with the new
    velocity, and the target is returned as it was given.  Over the reals
    the new position is therefore [p + v dt + a dt^2]. *)
Theorem updateSpring_semi_implicit_euler :
  (forall (num : Type) (N : Number num)
          (state : SpringState num) (config : SpringConfig num) (dt : num),
     let ax := (- stiffness config * (x (position state) - x (target state))
                - damping config * x (velocity state))%js in
     let ay := (- stiffness config * (y (position state) - y (target state))
                - damping config * y (velocity state))%js in
     let vx' := (x (velocity state) + ax * dt)%js in
     let vy' := (y (velocity state) + ay * dt)%js in
     velocity (updateSpring state config dt) = {| x := vx'; y := vy' |} /\
     position (updateSpring state config dt) =
       {| x := x (position state) + vx' * dt;
          y := y (position state) + vy' * dt |}%js /\
     target (updateSpring state config dt) = target state) /\
  (forall (state : SpringState R) (config : SpringConfig R) (dt : R),
     let ax := (- stiffness config * (x (position state) - x (target state))
                - damping config * x (velocity state))%R in
     let ay := (- stiffness config * (y (position state) - y (target state))
                - damping config * y (velocity state))%R in
     x (position (updateSpring state config dt)) =
       (x (position state) + x (velocity state) * dt + ax * dt * dt)%R /\
     y (position (updateSpring state config dt)) =
       (y (position state) + y (velocity state) * dt + ay * dt * dt)%R).
Proof.
  split.
  - intros num N state config dt. apply updateSpring_fields.
  - intros state config dt. apply updateSpring_position.
Qed.

(** ** In binary64 *)

Section Binary64.

Local Open Scope js_scope.

Lemma SFltb_irrefl (a : F64.t) : SFltb a a = false.
Proof.
  unfold SFltb. destruct a as [[]|[]| |[] m e]; cbn;
    rewrite ?Z.compare_refl, ?Pos.compare_cont_refl; reflexivity.
Qed.

#[export] Instance F64_Lawful : LawfulNumber F64.t.
Proof. constructor; [exact SFltb_irrefl|reflexivity]. Qed.

Lemma SFeqb_finite_refl (a : F64.t) : F64.is_finite a = true -> SFeqb a a = true.
Proof.
  unfold SFeqb. destruct a as [[]|[]| |[] m e]; cbn; try discriminate; intros _;
    rewrite ?Z.compare_refl, ?Pos.compare_cont_refl; reflexivity.
Qed.

(** *** Multiplying by one and by zero is exact *)

Lemma digits2_pos_shift (m n : positive) :
  Zpos (digits2_pos (Pos.iter xO m n)) = (Zpos (digits2_pos m) + Zpos n)%Z.
Proof.
  revert m. induction n using Pos.peano_ind; intros m.
  - cbn. lia.
  - rewrite Pos.iter_succ. cbn [digits2_pos]. rewrite Pos2Z.inj_succ, IHn. lia.
Qed.

(** The product of 2^52 * 2^-52 with a canonical m * 2^e has mantissa
    [m] shifted left by 52 bits; rounding shifts it back without loss. *)
Lemma mul_one_l (s : bool) (m : positive) (e : Z) :
  bounded F64.prec F64.emax m e = true ->
  F64.of_Z 1 * S754_finite s m e = S754_finite s m e.
Proof.
  intros Hb. unfold bounded, canonical_mantissa in Hb.
  apply andb_prop in Hb as [Hc He]. apply Z.eqb_eq in Hc.
  change (F64.of_Z 1) with (S754_finite false 4503599627370496 (-52)).
  cbn [num_mul F64_Number]. unfold F64.mul, SFmul. cbn [xorb].
  change (4503599627370496 * m)%positive with (Pos.iter xO m 52).
  unfold binary_round_aux, shr_fexp.
  unfold Zdigits2 at 1. rewrite digits2_pos_shift.
  replace (Z.pos (digits2_pos m) + 52 + (-52 + e))%Z
    with (Z.pos (digits2_pos m) + e)%Z by lia.
  rewrite Hc. replace (e - (-52 + e))%Z with 52%Z by lia.
  cbn [shr shr_record_of_loc].
  change (iter_pos shr_1 52
            {| shr_m := Z.pos (Pos.iter xO m 52);
               shr_r := false; shr_s := false |})
    with {| shr_m := Z.pos m; shr_r := false; shr_s := false |}.
  cbn [shr_m loc_of_shr_record round_nearest_even Zdigits2].
  replace (-52 + e + 52)%Z with e by lia.
  rewrite Hc, Z.sub_diag. cbn [shr shr_record_of_loc shr_m].
  rewrite He. reflexivity.
Qed.

Lemma mul_one_finite (a : F64.t) :
  F64.finite a = true ->
  (exists s, a = S754_zero s /\ F64.of_Z 1 * a = S754_zero s) \/
  (exists s m e, a = S754_finite s m e /\ F64.of_Z 1 * a = a).
Proof.
  unfold F64.finite. intros Hf. apply andb_prop in Hf as [Hfin Hval].
  destruct a as [s|s| |s m e]; try discriminate.
  - left. exists s. split; reflexivity.
  - right. exists s, m, e. split; [reflexivity|]. now apply mul_one_l.
Qed.

Lemma mul_zero_l (a : F64.t) :
  F64.finite a = true -> F64.is_zero (S754_zero false * a) = true.
Proof.
  unfold F64.finite. intros Hf. apply andb_prop in Hf as [Hfin _].
  destruct a; cbn; try discriminate; reflexivity.
Qed.

(** A sum of one term [1 * a] and three signed zeros is [a], up to the
    sign of a zero [a]. *)
Lemma blend_first (a z1 z2 z3 : F64.t) :
  F64.finite a = true ->
  F64.is_zero z1 = true -> F64.is_zero z2 = true -> F64.is_zero z3 = true ->
  (F64.of_Z 1 * a + z1 + z2 + z3 =? a) = true.
Proof.
  intros Ha H1 H2 H3.
  destruct z1 as [s1| | |]; try discriminate.
  destruct z2 as [s2| | |]; try discriminate.
  destruct z3 as [s3| | |]; try discriminate.
  destruct (mul_one_finite a Ha) as [(s & -> & ->)|(s & m & e & Hs & ->)].
  - destruct s, s1, s2, s3; reflexivity.
  - subst a. cbn [num_add F64_Number F64.add SFadd].
    apply SFeqb_finite_refl. reflexivity.
Qed.

Lemma blend_last (z0 z1 z2 a : F64.t) :
  F64.finite a = true ->
  F64.is_zero z0 = true -> F64.is_zero z1 = true -> F64.is_zero z2 = true ->
  (z0 + z1 + z2 + F64.of_Z 1 * a =? a) = true.
Proof.
  intros Ha H0 H1 H2.
  destruct z0 as [s0| | |]; try discriminate.
  destruct z1 as [s1| | |]; try discriminate.
  destruct z2 as [s2| | |]; try discriminate.
  destruct (mul_one_finite a Ha) as [(s & -> & ->)|(s & m & e & Hs & ->)].
  - destruct s, s0, s1, s2; reflexivity.
  - subst a. destruct s0, s1, s2; cbn [num_add F64_Number F64.add SFadd];
      apply SFeqb_finite_refl; reflexivity.
Qed.

Lemma bezierPoint_F64_at_0 (p0 p1 p2 p3 : Point F64.t) :
  finitePoint p0 = true -> finitePoint p1 = true ->
  finitePoint p2 = true -> finitePoint p3 = true ->
  strictEqual (bezierPoint p0 p1 p2 p3 (of_Z 0)) p0 = true.
Proof.
  unfold finitePoint. intros H0 H1 H2 H3.
  apply andb_prop in H0 as [H0x H0y]. apply andb_prop in H1 as [H1x H1y].
  apply andb_prop in H2 as [H2x H2y]. apply andb_prop in H3 as [H3x H3y].
  unfold strictEqual, bezierPoint. cbv zeta. cbn [x y].
  change (of_Z 1 - of_Z 0) with (F64.of_Z 1).
  change (F64.of_Z 1 * F64.of_Z 1 * F64.of_Z 1) with (F64.of_Z 1).
  change (of_Z 3 * (F64.of_Z 1 * F64.of_Z 1) * of_Z 0) with (S754_zero false).
  change (of_Z 3 * F64.of_Z 1 * (of_Z 0 * of_Z 0)) with (S754_zero false).
  change (of_Z 0 * of_Z 0 * of_Z 0) with (S754_zero false).
  apply andb_true_intro; split; apply blend_first;
    try apply mul_zero_l; assumption.
Qed.

Lemma bezierPoint_F64_at_1 (p0 p1 p2 p3 : Point F64.t) :
  finitePoint p0 = true -> finitePoint p1 = true ->
  finitePoint p2 = true -> finitePoint p3 = true ->
  strictEqual (bezierPoint p0 p1 p2 p3 (of_Z 1)) p3 = true.
Proof.
  unfold finitePoint. intros H0 H1 H2 H3.
  apply andb_prop in H0 as [H0x H0y]. apply andb_prop in H1 as [H1x H1y].
  apply andb_prop in H2 as [H2x H2y]. apply andb_prop in H3 as [H3x H3y].
  unfold strictEqual, bezierPoint. cbv zeta. cbn [x y].
  change (of_Z 1 - of_Z 1) with (S754_zero false).
  change (S754_zero false * S754_zero false * S754_zero false)
    with (S754_zero false).
  change (of_Z 3 * (S754_zero false * S754_zero false) * of_Z 1)
    with (S754_zero false).
  change (of_Z 3 * S754_zero false * (of_Z 1 * of_Z 1)) with (S754_zero false).
  change (of_Z 1 * of_Z 1 * of_Z 1) with (F64.of_Z 1).
  apply andb_true_intro; split; apply blend_last;
    try apply mul_zero_l; assumption.
Qed.

(** *** The samplers at the counts the pipeline uses *)

Lemma SF_same_eq (a b : F64.t) : SF_same a b = true -> a = b.
Proof.
  destruct a as [s|s| |s m e], b as [s'|s'| |s' m' e']; cbn;
    try discriminate; try reflexivity.
  - intros Hs. apply Bool.eqb_prop in Hs. now subst.
  - intros Hs. apply Bool.eqb_prop in Hs. now subst.
  - intros Hs. apply andb_prop in Hs as [Hs He]. apply andb_prop in Hs as [Hs Hm].
    apply Bool.eqb_prop in Hs. apply Pos.eqb_eq in Hm. apply Z.eqb_eq in He.
    now subst.
Qed.

Lemma list_same_eq (l l' : list F64.t) : list_same l l' = true -> l = l'.
Proof.
  revert l'. induction l as [|a r IH]; intros [|a' r']; cbn;
    try discriminate; try reflexivity.
  intros Hs. apply andb_prop in Hs as [Ha Hr].
  apply SF_same_eq in Ha. apply IH in Hr. now subst.
Qed.

(** The loops of up to 256 steps, run one by one. *)
Lemma counters_ok_256 : forallb counters_ok (seq 1 256) = true.
Proof. vm_compute. reflexivity. Qed.

Lemma counters_F64 (n fuel : nat) :
  (1 <= n <= 256)%nat -> (S n < fuel)%nat ->
  for_le fuel (of_Z 0) (of_Z (Z.of_nat n)) (of_Z 1) (fun j : F64.t => j) [] =
    Some (map (fun k => of_Z (Z.of_nat k)) (seq 0 (S n))) /\
  (of_Z 0 : F64.t) / of_Z (Z.of_nat n) = of_Z 0 /\
  (of_Z (Z.of_nat n) : F64.t) / of_Z (Z.of_nat n) = of_Z 1.
Proof.
  intros Hn Hfuel.
  assert (Hok : counters_ok n = true).
  { pose proof counters_ok_256 as Hall. rewrite forallb_forall in Hall.
    apply Hall. apply in_seq. lia. }
  unfold counters_ok in Hok.
  apply andb_prop in Hok as [Hok Hlast]. apply andb_prop in Hok as [Hloop Hfirst].
  apply SF_same_eq in Hfirst, Hlast.
  destruct (for_le (S (S n)) (F64.of_Z 0) (F64.of_Z (Z.of_nat n)) (F64.of_Z 1)
              (fun j => j) []) as [l|] eqn:Hrun; [|discriminate].
  apply list_same_eq in Hloop. subst l.
  split; [|split; assumption].
  apply for_le_fuel with (fuel := S (S n)); [lia|exact Hrun].
Qed.

Lemma drawTangents_F64 (p0 p1 p2 p3 : Point F64.t) (fuel : nat) :
  (10 <= fuel)%nat ->
  drawTangents fuel p0 p1 p2 p3 =
    Some (tangentOps p0 p1 p2 p3
            (map (fun k => of_Z (Z.of_nat k) / of_Z 8) (seq 0 9))).
Proof.
  intros Hfuel.
  destruct (counters_F64 8 fuel) as [Hloop _]; [lia|lia|].
  rewrite (drawTangents_ops fuel p0 p1 p2 p3 _ Hloop).
  now rewrite map_map.
Qed.

Lemma sampleBezierCurve_F64_steps (p0 p1 p2 p3 : Point F64.t) (n fuel : nat) :
  (1 <= n <= 256)%nat -> (S n < fuel)%nat ->
  finitePoint p0 = true -> finitePoint p1 = true ->
  finitePoint p2 = true -> finitePoint p3 = true ->
  exists points,
    sampleBezierCurve fuel p0 p1 p2 p3 (of_Z (Z.of_nat n)) = Some points /\
    points = map (fun k => bezierPoint p0 p1 p2 p3
                             (of_Z (Z.of_nat k) / of_Z (Z.of_nat n)))
               (seq 0 (S n)) /\
    List.length points = S n /\
    (exists first, nth_error points 0 = Some first /\
                   strictEqual first p0 = true) /\
    (exists last, nth_error points n = Some last /\
                  strictEqual last p3 = true).
Proof.
  intros Hn Hfuel H0 H1 H2 H3.
  destruct (counters_F64 n fuel Hn Hfuel) as (Hloop & Hfirst & Hlast).
  eexists. split; [|split; [reflexivity|]].
  - rewrite sampleBezierCurve_map, Hloop. cbn [option_map]. now rewrite map_map.
  - split; [now rewrite length_map, length_seq|]. split.
    + eexists. split; [reflexivity|].
      change (of_Z (Z.of_nat 0)) with (of_Z 0 : F64.t). rewrite Hfirst.
      now apply bezierPoint_F64_at_0.
    + eexists. split.
      * rewrite nth_error_map, nth_error_seq.
        replace (n <? S n)%nat with true by (symmetry; apply Nat.ltb_lt; lia).
        reflexivity.
      * cbn [Nat.add]. rewrite Hlast. now apply bezierPoint_F64_at_1.
Qed.

(** *** [normalize] *)

Lemma normalize_0_0_F64 :
  normalize (F64Point 0 0) = F64Point 0 0.
Proof. vm_compute. reflexivity. Qed.

Lemma normalize_3_4_F64 :
  normalize (F64Point 3 4) = mkPoint (decimal 6 1) (decimal 8 1).
Proof. vm_compute. reflexivity. Qed.

(** The division is reached only with a length that is not zero. *)
Lemma normalize_F64_guard (v : Point F64.t) :
  (F64.is_zero (magnitude v) = true -> normalize v = F64Point 0 0) /\
  (F64.is_zero (magnitude v) = false ->
   normalize v = {| x := x v / magnitude v; y := y v / magnitude v |}).
Proof.
  unfold normalize, magnitude.
  destruct (Math_sqrt (x v * x v + y v * y v)) as [s|s| |s m e];
    split; intros Hz; try discriminate Hz; try reflexivity;
    destruct s; reflexivity.
Qed.

(** The squares of [1e-200] underflow to zero, so the computed length of
    [tinyVector] is zero; the square of [1e200] overflows, so the computed
    length of [hugeVector] is Infinity, and a finite double divided by
    Infinity is zero. *)
Lemma tinyVector_F64 :
  finitePoint tinyVector = true /\ F64.is_zero tiny = false /\
  magnitude tinyVector = F64.of_Z 0 /\
  normalize tinyVector = F64Point 0 0.
Proof. vm_compute. repeat split. Qed.

Lemma hugeVector_F64 :
  finitePoint hugeVector = true /\ F64.is_zero huge = false /\
  magnitude hugeVector = S754_infinity false /\
  normalize hugeVector = F64Point 0 0.
Proof. vm_compute. repeat split. Qed.

(** *** NaN goes through every arithmetic operation *)

Lemma add_NaN_l (a : F64.t) : F64.NaN + a = F64.NaN.
Proof. reflexivity. Qed.

Lemma sub_NaN_r (a : F64.t) : a - F64.NaN = F64.NaN.
Proof. destruct a; reflexivity. Qed.

Lemma mul_NaN_l (a : F64.t) : F64.NaN * a = F64.NaN.
Proof. reflexivity. Qed.

Lemma mul_NaN_r (a : F64.t) : a * F64.NaN = F64.NaN.
Proof. destruct a; reflexivity. Qed.

Lemma bezierPoint_NaN (p0 p1 p2 p3 : Point F64.t) :
  bezierPoint p0 p1 p2 p3 F64.NaN = NaNPoint.
Proof.
  unfold bezierPoint, NaNPoint. cbv zeta.
  rewrite !sub_NaN_r, !mul_NaN_l, !add_NaN_l. reflexivity.
Qed.

Lemma bezierTangent_NaN (p0 p1 p2 p3 : Point F64.t) :
  bezierTangent p0 p1 p2 p3 F64.NaN = NaNPoint.
Proof.
  unfold bezierTangent, NaNPoint. cbv zeta.
  repeat (progress rewrite ?sub_NaN_r, ?mul_NaN_l, ?mul_NaN_r, ?add_NaN_l).
  reflexivity.
Qed.

Lemma normalize_NaN : normalize NaNPoint = NaNPoint.
Proof. vm_compute. reflexivity. Qed.

(** With a bound of zero the loop runs once, at [i = 0]. *)
Lemma for_le_zero (B : Type) (body : F64.t -> B) (fuel : nat) :
  (2 <= fuel)%nat ->
  for_le fuel (of_Z 0) (of_Z 0) (of_Z 1) body [] = Some [body (of_Z 0)].
Proof.
  intros Hfuel. apply for_le_fuel with (fuel := 2%nat); [exact Hfuel|].
  reflexivity.
Qed.

Lemma zero_over_zero : (of_Z 0 : F64.t) / of_Z 0 = F64.NaN.
Proof. reflexivity. Qed.

(** *** The burst of signals *)

Lemma burst_signals :
  signals scheduler60 burst =
    [None; None; None; Some (decimal 16 3); Some (decimal 17 3)].
Proof. vm_compute. reflexivity. Qed.

Lemma burst_firing_truthy : firing_truthy scheduler60 burst = true.
Proof. vm_compute. reflexivity. Qed.

Lemma burst_on_component (fuel : nat) (host : Host F64.t) :
  (exists cv, canvas host = Some cv) ->
  context2d host = true ->
  (exists rect, container host = Some rect) ->
  map tickStep
    (snd (run fuel host (handleResize host (BezierCanvas (of_Z 60))) burst)) =
    [None; None; None; Some (decimal 16 3); Some (decimal 17 3)].
Proof.
  intros Hcv Hctx Hrect.
  rewrite run_refines_signals.
  - rewrite mounted_scheduler. exact burst_signals.
  - now apply mounted_ready.
  - rewrite mounted_scheduler. exact burst_firing_truthy.
Qed.

End Binary64.

(** ** The curve: endpoints, sampling and [normalize] *)

(** C4. At parameter 0 the curve is at P0 and at parameter 1 it is at P3:
    over the reals for all control points, and in binary64 for all
    control points with finite coordinates, where the two are equal as
    [===] has it (a zero coordinate may come back with the other sign). *)
Theorem bezierPoint_endpoints :
  (forall p0 p1 p2 p3 : Point R,
     bezierPoint p0 p1 p2 p3 0%R = p0 /\ bezierPoint p0 p1 p2 p3 1%R = p3) /\
  (forall p0 p1 p2 p3 : Point F64.t,
     finitePoint p0 = true -> finitePoint p1 = true ->
     finitePoint p2 = true -> finitePoint p3 = true ->
     strictEqual (bezierPoint p0 p1 p2 p3 (of_Z 0)) p0 = true /\
     strictEqual (bezierPoint p0 p1 p2 p3 (of_Z 1)) p3 = true).
Proof.
  split.
  - intros p0 p1 p2 p3. split; [apply bezierPoint_at_0|apply bezierPoint_at_1].
  - intros p0 p1 p2 p3 H0 H1 H2 H3.
    split; [now apply bezierPoint_F64_at_0|now apply bezierPoint_F64_at_1].
Qed.

(** C5. For a whole number of steps [n >= 1], [sampleBezierCurve] returns
    [n + 1] points, the [k]-th evaluated at [t = k / n] (so from 0 to 1 in
    increasing order, evenly spaced), the first being P0 and the last P3:
    over the reals for every [n], and in binary64 for every [n] up to
    256 (the pipeline takes 150) and finite control points, with P0 and
    P3 met as [===] has it. *)
Theorem sampleBezierCurve_steps :
  (forall (p0 p1 p2 p3 : Point R) (n fuel : nat),
     (1 <= n)%nat -> (S n < fuel)%nat ->
     exists points,
       sampleBezierCurve fuel p0 p1 p2 p3 (of_Z (Z.of_nat n)) = Some points /\
       List.length points = S n /\
       (forall k, (k <= n)%nat ->
          nth_error points k =
            Some (bezierPoint p0 p1 p2 p3 (INR k / INR n)%R)) /\
       nth_error points 0 = Some p0 /\
       nth_error points n = Some p3) /\
  (forall (p0 p1 p2 p3 : Point F64.t) (n fuel : nat),
     (1 <= n <= 256)%nat -> (S n < fuel)%nat ->
     finitePoint p0 = true -> finitePoint p1 = true ->
     finitePoint p2 = true -> finitePoint p3 = true ->
     exists points,
       sampleBezierCurve fuel p0 p1 p2 p3 (of_Z (Z.of_nat n)) = Some points /\
       points = map (fun k => bezierPoint p0 p1 p2 p3
                                (of_Z (Z.of_nat k) / of_Z (Z.of_nat n))%js)
                  (seq 0 (S n)) /\
       List.length points = S n /\
       (exists first, nth_error points 0 = Some first /\
                      strictEqual first p0 = true) /\
       (exists last, nth_error points n = Some last /\
                     strictEqual last p3 = true)).
Proof.
  split.
  - apply sampleBezierCurve_whole_steps.
  - apply sampleBezierCurve_F64_steps.
Qed.

(** C6, as stated, fails in binary64: the vector (1e-200, 1e-200) is not
    zero, yet its computed length is zero and [normalize] returns (0,0);
    the vector (0, 1e200) is not zero, its computed length is Infinity,
    and [normalize] returns (0,0), which is not a unit vector. *)
Lemma normalize_nonzero_to_zero :
  (finitePoint tinyVector = true /\ F64.is_zero (x tinyVector) = false /\
   magnitude tinyVector = F64.of_Z 0 /\
   normalize tinyVector = F64Point 0 0) /\
  (finitePoint hugeVector = true /\ F64.is_zero (y hugeVector) = false /\
   magnitude hugeVector = S754_infinity false /\
   normalize hugeVector = F64Point 0 0).
Proof. split; [exact tinyVector_F64|exact hugeVector_F64]. Qed.

(** C6, amended. Over the reals [normalize v] is the zero vector exactly
    when the length of [v] is zero, which is when [v] is the zero vector;
    for any other [v] it is [v] divided by its length: of length one, and
    along [v].  In binary64 [normalize v] is (0,0) when the computed
    length [Math.sqrt(x * x + y * y)] is zero and [v] divided by the
    computed length otherwise, so the division is never by zero; the
    computed length is zero also for (1e-200, 1e-200), whose squares
    underflow, and it is Infinity for (0, 1e200), whose square
    overflows, and the result is (0,0) for both.  And
    [normalize (0,0) = (0,0)] and [normalize (3,4) = (0.6, 0.8)], over
    the reals and in binary64 alike. *)
Theorem normalize_spec :
  (forall v : Point R,
     (normalize v = mkPoint 0%R 0%R <-> magnitude v = 0%R) /\
     (magnitude v = 0%R <-> v = mkPoint 0%R 0%R) /\
     (v <> mkPoint 0%R 0%R ->
        (0 < magnitude v)%R /\
        normalize v = mkPoint (x v / magnitude v)%R (y v / magnitude v)%R /\
        magnitude (normalize v) = 1%R /\
        x v = (magnitude v * x (normalize v))%R /\
        y v = (magnitude v * y (normalize v))%R)) /\
  (forall v : Point F64.t,
     (F64.is_zero (magnitude v) = true -> normalize v = F64Point 0 0) /\
     (F64.is_zero (magnitude v) = false ->
        normalize v =
          {| x := x v / magnitude v; y := y v / magnitude v |}%js)) /\
  (magnitude tinyVector = F64.of_Z 0 /\
   normalize tinyVector = F64Point 0 0) /\
  (magnitude hugeVector = S754_infinity false /\
   normalize hugeVector = F64Point 0 0) /\
  normalize (mkPoint 0%R 0%R) = mkPoint 0%R 0%R /\
  normalize (mkPoint 3%R 4%R) = mkPoint (decimal 6 1) (decimal 8 1) /\
  normalize (F64Point 0 0) = F64Point 0 0 /\
  normalize (F64Point 3 4) = mkPoint (decimal 6 1) (decimal 8 1).
Proof.
  split; [|split; [|split; [|split; [|split; [|split; [|split]]]]]].
  - intros v. split; [apply normalize_zero_iff|].
    split; [apply magnitude_zero_point|].
    intros Hv.
    assert (Hm : magnitude v <> 0%R).
    { intros Hm. apply Hv. now apply magnitude_zero_point. }
    split.
    { pose proof (magnitude_nonneg v). lra. }
    split; [|now apply normalize_unit].
    destruct (normalize_cases v) as [[Hm0 _]|[_ Heq]]; easy.
  - apply normalize_F64_guard.
  - destruct tinyVector_F64 as (_ & _ & Hm & Hn). split; assumption.
  - destruct hugeVector_F64 as (_ & _ & Hm & Hn). split; assumption.
  - apply normalize_zero_iff. apply magnitude_zero_iff. now cbn.
  - apply normalize_3_4_R.
  - apply normalize_0_0_F64.
  - apply normalize_3_4_F64.
Qed.

(** C10. With [steps = 0] the one sample of [sampleBezierCurve] is taken at
    [t = 0 / 0], which is NaN, and both its coordinates are NaN whatever
    the control points are; so the result is not [[P0]] unless P0 is NaN
    itself.  With [count = 0], [sampleTangents] likewise returns one
    sample whose point, tangent and normalized tangent are all NaN. *)
Theorem sampling_zero_steps_NaN (p0 p1 p2 p3 : Point F64.t) (fuel : nat) :
  (2 <= fuel)%nat ->
  sampleBezierCurve fuel p0 p1 p2 p3 (of_Z 0) = Some [NaNPoint] /\
  (p0 <> NaNPoint -> sampleBezierCurve fuel p0 p1 p2 p3 (of_Z 0) <> Some [p0]) /\
  sampleTangents fuel p0 p1 p2 p3 (of_Z 0) =
    Some [{| point := NaNPoint; tangent := NaNPoint;
             normalizedTangent := NaNPoint |}].
Proof.
  intros Hfuel.
  assert (Hcurve : sampleBezierCurve fuel p0 p1 p2 p3 (of_Z 0) = Some [NaNPoint]).
  { unfold sampleBezierCurve. rewrite for_le_zero by exact Hfuel.
    cbv beta zeta. rewrite zero_over_zero, bezierPoint_NaN. reflexivity. }
  split; [exact Hcurve|]. split.
  - intros Hp0 Heq. rewrite Hcurve in Heq. injection Heq as Heq.
    apply Hp0. now symmetry.
  - unfold sampleTangents. rewrite for_le_zero by exact Hfuel.
    cbv beta zeta. rewrite zero_over_zero, bezierPoint_NaN, bezierTangent_NaN.
    rewrite normalize_NaN. reflexivity.
Qed.

(** ** The tangents the pipeline draws *)

(** C9, as stated, fails: on the surface at rest [drawTangents] draws
    nine tangent segments, not eight. *)
Lemma drawTangents_draws_nine_not_eight :
  exists ops,
    drawTangents 20 restP0 restP1 restP2 restP3 = Some ops /\
    tangentSegments ops = 9%nat /\ tangentSegments ops <> 8%nat.
Proof.
  eexists. split; [apply drawTangents_F64; lia|].
  rewrite tangentSegments_tangentOps. cbn. split; [reflexivity|discriminate].
Qed.

(** C9, amended. [sampleTangents] with a whole [count >= 1] returns
    [count + 1] samples, the [k]-th holding the point, the raw tangent and
    the normalized tangent at [t = k / count] (over the reals for every
    count, in binary64 for counts up to 256); the pipeline calls it with
    [count = 8] and draws one segment and one dot per sample, so nine
    tangents, at [t = 0, 1/8, ..., 1]. *)
Theorem drawTangents_nine_samples :
  (forall (p0 p1 p2 p3 : Point R) (n fuel : nat),
     (1 <= n)%nat -> (S n < fuel)%nat ->
     sampleTangents fuel p0 p1 p2 p3 (of_Z (Z.of_nat n)) =
       Some (map (fun k => tangentAt p0 p1 p2 p3 (INR k / INR n)%R)
               (seq 0 (S n)))) /\
  (forall (p0 p1 p2 p3 : Point F64.t) (n fuel : nat),
     (1 <= n <= 256)%nat -> (S n < fuel)%nat ->
     sampleTangents fuel p0 p1 p2 p3 (of_Z (Z.of_nat n)) =
       Some (map (fun k => tangentAt p0 p1 p2 p3
                             (of_Z (Z.of_nat k) / of_Z (Z.of_nat n))%js)
               (seq 0 (S n)))) /\
  (forall (p0 p1 p2 p3 : Point R) (fuel : nat),
     (10 <= fuel)%nat ->
     exists ops,
       drawTangents fuel p0 p1 p2 p3 = Some ops /\
       ops = tangentOps p0 p1 p2 p3 (map (fun k => INR k / 8)%R (seq 0 9)) /\
       tangentSegments ops = 9%nat) /\
  (forall (p0 p1 p2 p3 : Point F64.t) (fuel : nat),
     (10 <= fuel)%nat ->
     exists ops,
       drawTangents fuel p0 p1 p2 p3 = Some ops /\
       ops = tangentOps p0 p1 p2 p3
               (map (fun k => of_Z (Z.of_nat k) / of_Z 8)%js (seq 0 9)) /\
       tangentSegments ops = 9%nat).
Proof.
  split; [|split; [|split]].
  - intros p0 p1 p2 p3 n fuel _ Hfuel.
    change (of_Z (Z.of_nat n)) with (IZR (Z.of_nat n)). rewrite <- INR_IZR_INZ.
    now apply sampleTangents_count.
  - intros p0 p1 p2 p3 n fuel Hn Hfuel.
    destruct (counters_F64 n fuel Hn Hfuel) as [Hloop _].
    rewrite sampleTangents_map, Hloop. cbn [option_map]. now rewrite map_map.
  - intros p0 p1 p2 p3 fuel Hfuel. eexists.
    split; [now apply drawTangents_R|]. split; [reflexivity|].
    now rewrite tangentSegments_tangentOps.
  - intros p0 p1 p2 p3 fuel Hfuel. eexists.
    split; [now apply drawTangents_F64|]. split; [reflexivity|].
    now rewrite tangentSegments_tangentOps.
Qed.

(** ** The scheduler of [animate] *)

(** C2. For a component whose canvas, context and springs are in place,
    a call of [animate] at timestamp [t] leaves every ref as it was when
    [t - lastRenderTime < frameInterval]; otherwise it ticks, sets
    [lastRenderTime] to [t - ((t - lastRenderTime) mod frameInterval)],
    records [t] as the time of the tick, and advances both springs by the
    minimum of 0.033 and the seconds since the previous tick, or of 0.033
    and 0.016 when no tick is on record.  Over a run of calls this is the
    frame scheduler of the specification, as long as ticks fire at
    timestamps that are neither zero nor NaN, which over the reals they
    always do when the scheduler starts at a time >= 0 with a positive
    interval.  At target rate 60 the signals 0, 5, 10, 17, 34 tick at 17
    (step 0.016) and at 34 (step 0.017) only. *)
Theorem animate_frame_scheduler :
  (forall (num : Type) (N : Number num) (fuel : nat) (host : Host num)
          (st : Canvas num) (t : num),
     ready host st ->
     (((t - lastRenderTimeRef st <? frameIntervalRef st) = true ->
       animate fuel host st t = (st, Skipped)) /\
      ((t - lastRenderTimeRef st <? frameIntervalRef st) = false ->
       let dt :=
         Math_min (if truthy (lastTimeRef st)
                   then (t - lastTimeRef st) / of_Z 1000
                   else decimal 16 3)
                  (decimal 33 3) in
       lastRenderTimeRef (fst (animate fuel host st t)) =
         t - ((t - lastRenderTimeRef st) mod frameIntervalRef st) /\
       lastTimeRef (fst (animate fuel host st t)) = t /\
       tickStep (snd (animate fuel host st t)) = Some dt /\
       spring1Ref (fst (animate fuel host st t)) =
         option_map (fun s => updateSpring s DEFAULT_SPRING_CONFIG dt)
           (spring1Ref st) /\
       spring2Ref (fst (animate fuel host st t)) =
         option_map (fun s => updateSpring s DEFAULT_SPRING_CONFIG dt)
           (spring2Ref st)))%js) /\
  (forall (num : Type) (N : Number num) (fuel : nat) (host : Host num)
          (st : Canvas num) (ts : list num),
     ready host st ->
     firing_truthy (schedulerOf st) ts = true ->
     map tickStep (snd (run fuel host st ts)) = signals (schedulerOf st) ts) /\
  (forall (s : FrameScheduler R) (ts : list R),
     (0 <= lastTick s)%R -> (0 < targetIntervalMs s)%R ->
     firing_truthy s ts = true) /\
  (forall (fuel : nat) (host : Host F64.t),
     (exists cv, canvas host = Some cv) ->
     context2d host = true ->
     (exists rect, container host = Some rect) ->
     map tickStep
       (snd (run fuel host (handleResize host (BezierCanvas (of_Z 60))) burst)) =
       [None; None; None; Some (decimal 16 3); Some (decimal 17 3)]).
Proof.
  split; [|split; [|split]].
  - intros num N fuel host st t Hready. split.
    + apply animate_skips.
    + intros Hge. destruct Hready as (Hcv & Hctx & [s1 H1] & [s2 H2]).
      pose proof (animate_fires fuel host st t s1 s2 Hcv Hctx H1 H2 Hge)
        as ([drawn Hd] & Hr & Ht & _ & H1' & H2').
      cbv zeta in Hd, Hr, Ht, H1', H2'. cbv zeta.
      rewrite Hd, H1, H2. repeat split; assumption.
  - intros num N fuel host st ts. apply run_refines_signals.
  - intros s ts. apply firing_truthy_R.
  - apply burst_on_component.
Qed.

(** ** The controller *)




(** ** The theorems at concrete inputs *)

Lemma restPoints_finite :
  finitePoint restP0 = true /\ finitePoint restP1 = true /\
  finitePoint restP2 = true /\ finitePoint restP3 = true.
Proof. repeat split; vm_compute; reflexivity. Qed.

(** The curve of the surface at rest starts at P0 and ends at P3. *)
Lemma bezierPoint_endpoints_example :
  strictEqual (bezierPoint restP0 restP1 restP2 restP3 (of_Z 0)) restP0 = true /\
  strictEqual (bezierPoint restP0 restP1 restP2 restP3 (of_Z 1)) restP3 = true.
Proof.
  destruct bezierPoint_endpoints as [_ Hf64].
  apply Hf64; vm_compute; reflexivity.
Defined.


(** Two steps along the arch over the reals, and the 150 steps of the
    pipeline along the curve at rest in binary64. *)
Lemma sampleBezierCurve_steps_example :
  (exists points,
     sampleBezierCurve 4 archP0 archP1 archP2 archP3 (of_Z 2) = Some points /\
     List.length points = 3%nat /\
     (forall k, (k <= 2)%nat ->
        nth_error points k =
          Some (bezierPoint archP0 archP1 archP2 archP3 (INR k / INR 2)%R)) /\
     nth_error points 0 = Some archP0 /\
     nth_error points 2 = Some archP3) /\
  (exists points,
     sampleBezierCurve 152 restP0 restP1 restP2 restP3 (of_Z 150) = Some points /\
     List.length points = 151%nat /\
     (exists first, nth_error points 0 = Some first /\
                    strictEqual first restP0 = true) /\
     (exists last, nth_error points 150 = Some last /\
                   strictEqual last restP3 = true)).
Proof.
  destruct sampleBezierCurve_steps as [Hreal Hf64]. split.
  - apply (Hreal archP0 archP1 archP2 archP3 2%nat 4%nat); lia.
  - assert (Hrest : finitePoint restP0 = true /\ finitePoint restP1 = true /\
                    finitePoint restP2 = true /\ finitePoint restP3 = true)
      by (repeat split; vm_compute; reflexivity).
    destruct Hrest as (H0 & H1 & H2 & H3).
    assert (Hn : (1 <= 150 <= 256)%nat) by lia.
    assert (Hfuel : (151 < 152)%nat) by lia.
    destruct (Hf64 restP0 restP1 restP2 restP3 150%nat 152%nat
                Hn Hfuel H0 H1 H2 H3)
      as (points & Hrun & _ & Hlen & Hfirst & Hlast).
    exists points.
    split; [exact Hrun|]. split; [exact Hlen|]. split; [exact Hfirst|exact Hlast].
Defined.

Lemma bezierPoint_collapsed_example :
  let s := (3 * (1 / 4) * (1 / 4) - 2 * (1 / 4) * (1 / 4) * (1 / 4))%R in
  (0 <= s <= 1)%R /\
  bezierPoint archP0 archP0 segmentEnd segmentEnd (1 / 4)%R =
    lerp archP0 segmentEnd s /\
  (bezierPoint archP0 archP0 segmentEnd segmentEnd (1 / 4)%R =
     lerp archP0 segmentEnd (1 / 4)%R <->
   archP0 = segmentEnd \/ (1 / 4 = 0)%R \/ (1 / 4 = 1 / 2)%R \/ (1 / 4 = 1)%R).
Proof.
  apply (bezierPoint_collapsed_is_lerp
           archP0 archP0 segmentEnd segmentEnd (1 / 4)%R);
    [lra | reflexivity | reflexivity].
Defined.

Lemma sampling_zero_steps_example :
  sampleBezierCurve 2 restP0 restP1 restP2 restP3 (of_Z 0) = Some [NaNPoint] /\
  (restP0 <> NaNPoint ->
   sampleBezierCurve 2 restP0 restP1 restP2 restP3 (of_Z 0) <> Some [restP0]) /\
  sampleTangents 2 restP0 restP1 restP2 restP3 (of_Z 0) =
    Some [{| point := NaNPoint; tangent := NaNPoint;
             normalizedTangent := NaNPoint |}].
Proof.
  apply (sampling_zero_steps_NaN restP0 restP1 restP2 restP3 2). lia.
Defined.

(** A resize of the mounted component puts endpoints and springs where
    the layout of an 800 by 600 surface has them. *)
Lemma handleResize_example :
  p0Ref (handleResize host800 mounted800) = restP0 /\
  p3Ref (handleResize host800 mounted800) = restP3 /\
  spring1Ref (handleResize host800 mounted800) = Some spring800_1 /\
  spring2Ref (handleResize host800 mounted800) = Some spring800_2.
Proof.
  destruct (endpoints_move_only_on_resize host800 mounted800)
    as (_ & _ & _ & Hresize).
  destruct (Hresize (F64.of_Z 800, F64.of_Z 600)
              {| left := F64.of_Z 0; top := F64.of_Z 0;
                 width := F64.of_Z 800; height := F64.of_Z 600 |}
              eq_refl eq_refl)
    as (H0 & H3 & _ & _ & H1 & H2).
  rewrite H0, H3, H1, H2. repeat split; vm_compute; reflexivity.
Defined.

Lemma normalize_example :
  magnitude (normalize (mkPoint 3%R 4%R)) = 1%R.
Proof.
  destruct normalize_spec as (Hall & _).
  destruct (Hall (mkPoint 3%R 4%R)) as (_ & _ & Hunit).
  assert (Hv : mkPoint 3%R 4%R <> mkPoint 0%R 0%R).
  { intros Heq. injection Heq as H3 H4. lra. }
  exact (proj1 (proj2 (proj2 (Hunit Hv)))).
Defined.

Lemma drawTangents_example :
  option_map (@tangentSegments F64.t)
    (drawTangents 10 restP0 restP1 restP2 restP3) = Some 9%nat.
Proof.
  destruct drawTangents_nine_samples as (_ & _ & _ & Hdraw).
  destruct (Hdraw restP0 restP1 restP2 restP3 10%nat) as (ops & Hops & _ & Hn);
    [lia|].
  rewrite Hops. cbn [option_map]. now rewrite Hn.
Defined.

Lemma animate_burst_example :
  map tickStep (snd (run 200 host800 mounted800 burst)) =
    [None; None; None; Some (decimal 16 3); Some (decimal 17 3)].
Proof.
  destruct animate_frame_scheduler as (_ & _ & _ & Hburst).
  apply (Hburst 200%nat host800); [eexists | |eexists]; reflexivity.
Defined.

(** * Further properties of the sources *)

(** ** The curve and its tangent over the reals *)

Section CurveGeometry.

Local Open Scope R_scope.

Lemma derivable_pt_lim_eq (f g : R -> R) (t l : R) :
  (forall u, f u = g u) -> derivable_pt_lim g t l -> derivable_pt_lim f t l.
Proof.
  intros Hext Hg eps Heps. destruct (Hg eps Heps) as [delta Hd].
  exists delta. intros h Hh Hlt. rewrite !Hext. now apply Hd.
Qed.

Lemma cubic_derivative (c0 c1 c2 c3 t : R) :
  derivable_pt_lim (fun u => c0 + c1 * u + c2 * u * u + c3 * u * u * u) t
    (c1 + 2 * c2 * t + 3 * c3 * t * t).
Proof.
  pose proof (derivable_pt_lim_const c0 t) as H0.
  pose proof (derivable_pt_lim_id t) as Hid.
  pose proof (derivable_pt_lim_mult _ _ _ _ _
                (derivable_pt_lim_const c1 t) Hid) as H1.
  pose proof (derivable_pt_lim_mult _ _ _ _ _
                (derivable_pt_lim_mult _ _ _ _ _
                   (derivable_pt_lim_const c2 t) Hid) Hid) as H2.
  pose proof (derivable_pt_lim_mult _ _ _ _ _
                (derivable_pt_lim_mult _ _ _ _ _
                   (derivable_pt_lim_mult _ _ _ _ _
                      (derivable_pt_lim_const c3 t) Hid) Hid) Hid) as H3.
  pose proof (derivable_pt_lim_plus _ _ _ _ _
                (derivable_pt_lim_plus _ _ _ _ _
                   (derivable_pt_lim_plus _ _ _ _ _ H0 H1) H2) H3) as H.
  unfold plus_fct, mult_fct, fct_cte, id in H.
  match type of H with derivable_pt_lim _ _ ?l =>
    replace (c1 + 2 * c2 * t + 3 * c3 * t * t) with l by ring end.
  exact H.
Qed.

Lemma coordinate_derivative (a b c d t : R) (f : R -> R) (l : R) :
  (forall u, f u = a + (3 * b - 3 * a) * u + (3 * a - 6 * b + 3 * c) * u * u
                   + (d - 3 * c + 3 * b - a) * u * u * u) ->
  l = (3 * b - 3 * a) + 2 * (3 * a - 6 * b + 3 * c) * t
      + 3 * (d - 3 * c + 3 * b - a) * t * t ->
  derivable_pt_lim f t l.
Proof.
  intros Hf ->. eapply derivable_pt_lim_eq; [exact Hf|]. apply cubic_derivative.
Qed.

(** X1. [bezierTangent] is the derivative of [bezierPoint] in the
    parameter, coordinate by coordinate, at every [t]. *)
Theorem bezierTangent_is_derivative (p0 p1 p2 p3 : Point R) (t : R) :
  derivable_pt_lim (fun u => x (bezierPoint p0 p1 p2 p3 u)) t
    (x (bezierTangent p0 p1 p2 p3 t)) /\
  derivable_pt_lim (fun u => y (bezierPoint p0 p1 p2 p3 u)) t
    (y (bezierTangent p0 p1 p2 p3 t)).
Proof.
  split.
  - apply (coordinate_derivative (x p0) (x p1) (x p2) (x p3)).
    + intros u. unfold bezierPoint. cbn. ring.
    + unfold bezierTangent. cbn. ring.
  - apply (coordinate_derivative (y p0) (y p1) (y p2) (y p3)).
    + intros u. unfold bezierPoint. cbn. ring.
    + unfold bezierTangent. cbn. ring.
Qed.

Lemma bezier_weights (t : R) :
  0 <= t <= 1 ->
  0 <= (1 - t) * (1 - t) * (1 - t) /\ 0 <= 3 * ((1 - t) * (1 - t)) * t /\
  0 <= 3 * (1 - t) * (t * t) /\ 0 <= t * t * t.
Proof.
  intros [H0 H1].
  assert (0 <= 1 - t) by lra.
  assert (0 <= (1 - t) * (1 - t)) by (apply Rmult_le_pos; assumption).
  assert (0 <= t * t) by (apply Rmult_le_pos; assumption).
  repeat split.
  - apply Rmult_le_pos; assumption.
  - apply Rmult_le_pos; [|assumption]. lra.
  - apply Rmult_le_pos; [|assumption]. lra.
  - apply Rmult_le_pos; assumption.
Qed.

Lemma blend_bounds (w0 w1 w2 w3 a b c d lo hi : R) :
  0 <= w0 -> 0 <= w1 -> 0 <= w2 -> 0 <= w3 -> w0 + w1 + w2 + w3 = 1 ->
  lo <= a <= hi -> lo <= b <= hi -> lo <= c <= hi -> lo <= d <= hi ->
  lo <= w0 * a + w1 * b + w2 * c + w3 * d <= hi.
Proof.
  intros H0 H1 H2 H3 Hs [] [] [] [].
  assert (w0 * lo <= w0 * a) by (apply Rmult_le_compat_l; assumption).
  assert (w1 * lo <= w1 * b) by (apply Rmult_le_compat_l; assumption).
  assert (w2 * lo <= w2 * c) by (apply Rmult_le_compat_l; assumption).
  assert (w3 * lo <= w3 * d) by (apply Rmult_le_compat_l; assumption).
  assert (w0 * a <= w0 * hi) by (apply Rmult_le_compat_l; assumption).
  assert (w1 * b <= w1 * hi) by (apply Rmult_le_compat_l; assumption).
  assert (w2 * c <= w2 * hi) by (apply Rmult_le_compat_l; assumption).
  assert (w3 * d <= w3 * hi) by (apply Rmult_le_compat_l; assumption).
  assert (Hlo : lo = w0 * lo + w1 * lo + w2 * lo + w3 * lo).
  { transitivity ((w0 + w1 + w2 + w3) * lo); [rewrite Hs|]; ring. }
  assert (Hhi : hi = w0 * hi + w1 * hi + w2 * hi + w3 * hi).
  { transitivity ((w0 + w1 + w2 + w3) * hi); [rewrite Hs|]; ring. }
  split.
  - rewrite Hlo. lra.
  - rewrite Hhi. lra.
Qed.

(** X2. For [t] in [0,1] the curve stays in the bounding box of its four
    control points: a bound that holds for the x (or y) coordinate of all
    four holds for the x (or y) coordinate of the curve point. *)
Theorem bezierPoint_in_bounding_box
    (p0 p1 p2 p3 : Point R) (t xlo xhi ylo yhi : R) :
  0 <= t <= 1 ->
  (forall p, In p [p0; p1; p2; p3] ->
     xlo <= x p <= xhi /\ ylo <= y p <= yhi) ->
  xlo <= x (bezierPoint p0 p1 p2 p3 t) <= xhi /\
  ylo <= y (bezierPoint p0 p1 p2 p3 t) <= yhi.
Proof.
  intros Ht Hbox.
  destruct (bezier_weights t Ht) as (W0 & W1 & W2 & W3).
  assert (Hsum : (1 - t) * (1 - t) * (1 - t) + 3 * ((1 - t) * (1 - t)) * t
                 + 3 * (1 - t) * (t * t) + t * t * t = 1) by ring.
  destruct (Hbox p0) as [X0 Y0]; [cbn; tauto|].
  destruct (Hbox p1) as [X1 Y1]; [cbn; tauto|].
  destruct (Hbox p2) as [X2 Y2]; [cbn; tauto|].
  destruct (Hbox p3) as [X3 Y3]; [cbn; tauto|].
  unfold bezierPoint. cbn. split; apply blend_bounds; assumption.
Qed.

(** X3. Reversing the order of the control points reverses the
    parametrisation: the curve point at [t] is the point of the reversed
    curve at [1 - t], and the tangent there is the opposite vector. *)
Theorem bezier_reversal (p0 p1 p2 p3 : Point R) (t : R) :
  bezierPoint p3 p2 p1 p0 (1 - t) = bezierPoint p0 p1 p2 p3 t /\
  bezierTangent p3 p2 p1 p0 (1 - t) =
    vscale (-1) (bezierTangent p0 p1 p2 p3 t).
Proof.
  split; apply Point_eq; unfold bezierPoint, bezierTangent, vscale; cbn; ring.
Qed.

(** X4. Moving all four control points by a vector [d] moves every curve
    point by [d] and leaves every tangent as it was. *)
Theorem bezier_translation (p0 p1 p2 p3 d : Point R) (t : R) :
  bezierPoint (vadd p0 d) (vadd p1 d) (vadd p2 d) (vadd p3 d) t =
    vadd (bezierPoint p0 p1 p2 p3 t) d /\
  bezierTangent (vadd p0 d) (vadd p1 d) (vadd p2 d) (vadd p3 d) t =
    bezierTangent p0 p1 p2 p3 t.
Proof.
  split; apply Point_eq; unfold bezierPoint, bezierTangent, vadd; cbn; ring.
Qed.

Lemma magnitude_vscale (k : R) (v : Point R) :
  0 <= k -> magnitude (vscale k v) = k * magnitude v.
Proof.
  intros Hk. unfold magnitude, vscale. cbn.
  replace (k * x v * (k * x v) + k * y v * (k * y v))
    with (k * k * (x v * x v + y v * y v)) by ring.
  rewrite sqrt_mult; [|nra|nra]. now rewrite sqrt_square.
Qed.

Lemma normalize_vscale (k : R) (v : Point R) :
  0 < k -> normalize (vscale k v) = normalize v.
Proof.
  intros Hk. pose proof (magnitude_vscale k v (Rlt_le _ _ Hk)) as Hmag.
  destruct (normalize_cases v) as [[Hm Hv]|[Hm Hv]];
    destruct (normalize_cases (vscale k v)) as [[Hm' Hv']|[Hm' Hv']];
    rewrite Hv, Hv'.
  - reflexivity.
  - exfalso. apply Hm'. rewrite Hmag, Hm. ring.
  - exfalso. rewrite Hmag in Hm'. apply Rmult_integral in Hm'. destruct Hm'; lra.
  - rewrite Hmag. apply Point_eq; unfold vscale; cbn; field;
      split; (assumption || lra).
Qed.

Lemma normalize_idempotent (v : Point R) :
  normalize (normalize v) = normalize v.
Proof.
  destruct (normalize_cases v) as [[Hm Hv]|[Hm Hv]].
  - rewrite Hv. apply normalize_zero_iff. apply magnitude_zero_iff. now cbn.
  - destruct (normalize_unit v Hm) as (Hone & _).
    destruct (normalize_cases (normalize v)) as [[Hm' _]|[_ Hv']]; [lra|].
    rewrite Hv', Hone. apply Point_eq; cbn; field.
Qed.

(** X5. [normalize] keeps the direction only: it gives the same result
    for [v] and for any positive multiple of [v], and normalizing twice
    is normalizing once. *)
Theorem normalize_direction_only (k : R) (v : Point R) :
  0 < k ->
  normalize (vscale k v) = normalize v /\
  normalize (normalize v) = normalize v.
Proof.
  intros Hk. split; [now apply normalize_vscale|apply normalize_idempotent].
Qed.

Lemma bezierTangent_at_0 (p0 p1 p2 p3 : Point R) :
  bezierTangent p0 p1 p2 p3 0 = vscale 3 (vsub p1 p0).
Proof. apply Point_eq; unfold bezierTangent, vscale, vsub; cbn; ring. Qed.

Lemma bezierTangent_at_1 (p0 p1 p2 p3 : Point R) :
  bezierTangent p0 p1 p2 p3 1 = vscale 3 (vsub p3 p2).
Proof. apply Point_eq; unfold bezierTangent, vscale, vsub; cbn; ring. Qed.

(** X6. At its start the curve leaves P0 towards P1 and at its end it
    arrives at P3 from P2: the tangent at 0 is [3 (P1 - P0)], the tangent
    at 1 is [3 (P3 - P2)], and the normalized tangents sampled there are
    the directions of [P1 - P0] and of [P3 - P2]. *)
Theorem tangent_at_endpoints (p0 p1 p2 p3 : Point R) :
  tangent (tangentAt p0 p1 p2 p3 0) = vscale 3 (vsub p1 p0) /\
  tangent (tangentAt p0 p1 p2 p3 1) = vscale 3 (vsub p3 p2) /\
  normalizedTangent (tangentAt p0 p1 p2 p3 0) = normalize (vsub p1 p0) /\
  normalizedTangent (tangentAt p0 p1 p2 p3 1) = normalize (vsub p3 p2).
Proof.
  unfold tangentAt. cbn [tangent normalizedTangent].
  rewrite bezierTangent_at_0, bezierTangent_at_1.
  repeat split; apply normalize_vscale; lra.
Qed.

(** X7. When the four control points coincide the curve is that one
    point, its tangent is the zero vector at every [t], and the
    normalized tangent is the zero vector too (no division takes place). *)
Theorem coincident_control_points (q : Point R) (t : R) :
  tangentAt q q q q t =
    {| point := q; tangent := mkPoint 0 0; normalizedTangent := mkPoint 0 0 |}.
Proof.
  assert (Hp : bezierPoint q q q q t = q)
    by (apply Point_eq; unfold bezierPoint; cbn; ring).
  assert (Ht : bezierTangent q q q q t = mkPoint 0 0)
    by (apply Point_eq; unfold bezierTangent; cbn; ring).
  unfold tangentAt. rewrite Hp, Ht. f_equal.
  apply normalize_zero_iff. apply magnitude_zero_iff. now cbn.
Qed.

End CurveGeometry.

(** ** The samplers at their edges *)

Section SamplerEdges.

Local Open Scope js_scope.

(** X8. For any numbers, the points of [sampleTangents] are the points of
    [sampleBezierCurve] for the same control points and count, and each
    sample's normalized tangent is [normalize] of its tangent. *)
Theorem sampleTangents_follow_the_curve {num : Type} `{Number num}
    (fuel : nat) (p0 p1 p2 p3 : Point num) (count : num) :
  option_map (map point) (sampleTangents fuel p0 p1 p2 p3 count) =
    sampleBezierCurve fuel p0 p1 p2 p3 count /\
  (forall samples,
     sampleTangents fuel p0 p1 p2 p3 count = Some samples ->
     Forall (fun td => normalizedTangent td = normalize (tangent td)) samples).
Proof.
  rewrite sampleTangents_map, sampleBezierCurve_map.
  destruct (for_le fuel (of_Z 0) count (of_Z 1) (fun j => j) []) as [l|];
    cbn [option_map]; split; try reflexivity; try discriminate.
  - now rewrite map_map.
  - intros samples Hs. injection Hs as <-.
    apply Forall_forall. intros td Hin. apply in_map_iff in Hin.
    destruct Hin as (i & <- & _). reflexivity.
Qed.

Lemma for_le_stops_at_once {num : Type} `{Number num} (B : Type)
    (body : num -> B) (fuel : nat) (i bound step : num) :
  (i <=? bound) = false ->
  for_le (S fuel) i bound step body [] = Some [].
Proof. intros Hle. cbn [for_le]. now rewrite Hle. Qed.

Lemma zero_not_le_negative (steps : F64.t) :
  negative steps = true \/ steps = F64.NaN ->
  ((of_Z 0 : F64.t) <=? steps) = false.
Proof.
  intros [Hneg| ->]; [|reflexivity].
  destruct steps as [s|[]| |[] m e]; try discriminate; reflexivity.
Qed.

(** X9. With a negative number of steps (or NaN, in binary64) the loop
    body never runs: [sampleBezierCurve] and [sampleTangents] return the
    empty array. *)
Theorem sampling_negative_steps_is_empty :
  (forall (p0 p1 p2 p3 : Point R) (steps : R) (fuel : nat),
     (steps < 0)%R -> (1 <= fuel)%nat ->
     sampleBezierCurve fuel p0 p1 p2 p3 steps = Some [] /\
     sampleTangents fuel p0 p1 p2 p3 steps = Some []) /\
  (forall (p0 p1 p2 p3 : Point F64.t) (steps : F64.t) (fuel : nat),
     negative steps = true \/ steps = F64.NaN -> (1 <= fuel)%nat ->
     sampleBezierCurve fuel p0 p1 p2 p3 steps = Some [] /\
     sampleTangents fuel p0 p1 p2 p3 steps = Some []).
Proof.
  split.
  - intros p0 p1 p2 p3 steps [|fuel] Hneg Hfuel; [lia|].
    assert (Hle : ((of_Z 0 : R) <=? steps) = false)
      by (apply Rleb_false; exact Hneg).
    split; apply for_le_stops_at_once; exact Hle.
  - intros p0 p1 p2 p3 steps [|fuel] Hneg Hfuel; [lia|].
    pose proof (zero_not_le_negative steps Hneg) as Hle.
    split; apply for_le_stops_at_once; exact Hle.
Qed.

(** *** A bound of plus infinity *)

Lemma shr_1_nonneg (r : shr_record) :
  (0 <= shr_m r)%Z -> (0 <= shr_m (shr_1 r))%Z.
Proof. destruct r as [[|[p|p|]|p] r s]; cbn; lia. Qed.

Lemma iter_shr_1_nonneg (p : positive) :
  forall r, (0 <= shr_m r)%Z -> (0 <= shr_m (iter_pos shr_1 p r))%Z.
Proof.
  induction p as [p IH|p IH|]; intros r Hr; cbn [iter_pos].
  - apply IH, IH, shr_1_nonneg, Hr.
  - apply IH, IH, Hr.
  - apply shr_1_nonneg, Hr.
Qed.

Lemma shr_fexp_nonneg (m e : Z) (l : location) :
  (0 <= m)%Z -> (0 <= shr_m (fst (shr_fexp F64.prec F64.emax m e l)))%Z.
Proof.
  intros Hm. unfold shr_fexp, shr.
  assert (Hrec : (0 <= shr_m (shr_record_of_loc m l))%Z)
    by (destruct l as [|[]]; exact Hm).
  destruct (fexp F64.prec F64.emax (Zdigits2 m + e) - e)%Z; cbn [fst];
    try exact Hrec.
  now apply iter_shr_1_nonneg.
Qed.

Lemma round_nearest_even_nonneg (m : Z) (l : location) :
  (0 <= m)%Z -> (0 <= round_nearest_even m l)%Z.
Proof. intros Hm. destruct l as [|[]]; cbn; try destruct (Z.even m); lia. Qed.

Lemma binary_round_aux_nonnegative (m : positive) (e : Z) (l : location) :
  nonnegative (binary_round_aux F64.prec F64.emax false (Zpos m) e l) = true.
Proof.
  unfold binary_round_aux.
  pose proof (shr_fexp_nonneg (Zpos m) e l) as H1.
  destruct (shr_fexp F64.prec F64.emax (Z.pos m) e l) as [mrs' e'].
  cbn [fst] in H1. specialize (H1 ltac:(lia)).
  pose proof (shr_fexp_nonneg
                (round_nearest_even (shr_m mrs') (loc_of_shr_record mrs'))
                e' loc_Exact) as H2.
  destruct (shr_fexp F64.prec F64.emax
              (round_nearest_even (shr_m mrs') (loc_of_shr_record mrs'))
              e' loc_Exact) as [mrs'' e''].
  cbn [fst] in H2. specialize (H2 (round_nearest_even_nonneg _ _ H1)).
  destruct (shr_m mrs'') as [|q|q]; [reflexivity| |lia].
  destruct (e'' <=? F64.emax - F64.prec)%Z; reflexivity.
Qed.

Lemma succ_nonnegative (i : F64.t) :
  nonnegative i = true -> nonnegative (i + of_Z 1) = true.
Proof.
  change (of_Z 1 : F64.t) with (S754_finite false 4503599627370496 (-52)).
  destruct i as [s|[]| |[] m e]; try discriminate; intros _; try reflexivity.
  cbn [num_add F64_Number]. unfold F64.add, SFadd. cbn [cond_Zopp].
  unfold binary_normalize. cbn [Z.add]. unfold binary_round.
  destruct (shl_align _ _ _) as [mz ez].
  apply binary_round_aux_nonnegative.
Qed.

Lemma nonnegative_le_infinity (i : F64.t) :
  nonnegative i = true -> (i <=? S754_infinity false) = true.
Proof. destruct i as [s|[]| |[] m e]; try discriminate; reflexivity. Qed.

Lemma for_le_infinity (B : Type) (body : F64.t -> B) (fuel : nat) :
  forall (i : F64.t) (acc : list B),
    nonnegative i = true ->
    for_le fuel i (S754_infinity false) (of_Z 1) body acc = None.
Proof.
  induction fuel as [|fuel IH]; intros i acc Hi; [reflexivity|].
  cbn [for_le]. rewrite (nonnegative_le_infinity i Hi).
  apply IH. now apply succ_nonnegative.
Qed.

(** X10. In binary64, with [steps = Infinity] the counter stays below the
    bound for ever: whatever the fuel, [sampleBezierCurve] and
    [sampleTangents] do not return. *)
Theorem sampling_infinite_steps_never_returns
    (p0 p1 p2 p3 : Point F64.t) (fuel : nat) :
  sampleBezierCurve fuel p0 p1 p2 p3 (S754_infinity false) = None /\
  sampleTangents fuel p0 p1 p2 p3 (S754_infinity false) = None.
Proof. split; apply for_le_infinity; reflexivity. Qed.

End SamplerEdges.

(** ** The spring over the reals *)

Section SpringDynamics.

Local Open Scope R_scope.

Lemma SpringState_eq (s s' : SpringState R) :
  position s = position s' -> velocity s = velocity s' ->
  target s = target s' -> s = s'.
Proof. destruct s, s'; cbn; intros -> -> ->; reflexivity. Qed.

Lemma updateSpring_slowed (state : SpringState R) (config : SpringConfig R)
    (dt : R) :
  updateSpring state config dt =
    updateSpring (slowed (1 - damping config * dt) state)
      {| stiffness := stiffness config; damping := 0 |} dt.
Proof.
  apply SpringState_eq; try reflexivity;
    apply Point_eq; unfold updateSpring, slowed, vscale; cbn; ring.
Qed.

(** A step without damping keeps [shadowEnergy]. *)
Lemma shadowEnergy_kept (k dt : R) (state : SpringState R) :
  shadowEnergy {| stiffness := k; damping := 0 |} dt
    (updateSpring state {| stiffness := k; damping := 0 |} dt) =
  shadowEnergy {| stiffness := k; damping := 0 |} dt state.
Proof. unfold shadowEnergy, updateSpring. cbn. ring. Qed.

Lemma shadowEnergy_kept_n (k dt : R) (state : SpringState R) (n : nat) :
  shadowEnergy {| stiffness := k; damping := 0 |} dt
    (Nat.iter n
       (fun s => updateSpring s {| stiffness := k; damping := 0 |} dt) state) =
  shadowEnergy {| stiffness := k; damping := 0 |} dt state.
Proof.
  induction n as [|n IH]; [reflexivity|].
  rewrite Nat.iter_succ, shadowEnergy_kept. exact IH.
Qed.

(** The mixed term of [shadowEnergy] is at most [sqrt k * |dt| / 2] times
    the energy. *)
Lemma cross_term_bound (k dt dx dy vx vy : R) :
  0 <= k ->
  let a := sqrt k * Rabs dt / 2 in
  let e := k * (dx * dx + dy * dy) + (vx * vx + vy * vy) in
  - (a * e) <= k * dt * (dx * vx + dy * vy) <= a * e.
Proof.
  intros Hk. cbv zeta.
  pose proof (sqrt_pos k) as Hs0. pose proof (sqrt_sqrt k Hk) as Hss.
  set (s := sqrt k) in *. clearbody s. subst k.
  assert (Hw : 0 <= s * Rabs dt)
    by (apply Rmult_le_pos; [exact Hs0|apply Rabs_pos]).
  pose proof (Rmult_le_pos _ _ Hw (Rle_0_sqr (s * dx - vx))) as H1.
  pose proof (Rmult_le_pos _ _ Hw (Rle_0_sqr (s * dx + vx))) as H2.
  pose proof (Rmult_le_pos _ _ Hw (Rle_0_sqr (s * dy - vy))) as H3.
  pose proof (Rmult_le_pos _ _ Hw (Rle_0_sqr (s * dy + vy))) as H4.
  unfold Rsqr in H1, H2, H3, H4.
  unfold Rabs in *. destruct (Rcase_abs dt) as [Hneg|Hpos]; split; nra.
Qed.

Lemma shadowEnergy_bounds (k dt : R) (state : SpringState R) :
  0 <= k ->
  let undamped := {| stiffness := k; damping := 0 |} in
  let a := sqrt k * Rabs dt / 2 in
  (1 - a) * energy undamped state <= shadowEnergy undamped dt state
  <= (1 + a) * energy undamped state.
Proof.
  intros Hk. cbv zeta. unfold shadowEnergy, energy. cbn [stiffness].
  pose proof (cross_term_bound k dt
                (x (position state) - x (target state))
                (y (position state) - y (target state))
                (x (velocity state)) (y (velocity state)) Hk) as Hc.
  cbv zeta in Hc. lra.
Qed.

(** With a time step too long for the stiffness the energy does grow:
    one step of length 1 at stiffness 120, from a standstill at distance
    1, takes it from 120 to 1713720. *)
Remark energy_grows_at_long_steps :
  energy undamped120 springAtOne = 120 /\
  energy undamped120 (updateSpring springAtOne undamped120 1) = 1713720.
Proof. unfold energy, updateSpring. cbn. split; ring. Qed.

(** X11. A step with damping is the velocity shrunk by the factor
    [1 - damping * dt] followed by a step without damping.  A step
    without damping keeps the quadratic form [shadowEnergy] exactly,
    whatever the time step.  For a stiffness that is not negative that
    form lies between [1 - a] and [1 + a] times [energy], where
    [a = sqrt stiffness * |dt| / 2]; so when [a < 1] the energy after
    any number of steps without damping is at most [(1 + a) / (1 - a)]
    times the energy at the start.  The bound needs [a < 1]: at
    stiffness 120 one step of length 1 from a standstill at distance 1
    takes the energy from 120 to 1713720. *)
Theorem updateSpring_energy (state : SpringState R) (config : SpringConfig R)
    (dt : R) :
  let undamped := {| stiffness := stiffness config; damping := 0 |} in
  let a := sqrt (stiffness config) * Rabs dt / 2 in
  updateSpring state config dt =
    updateSpring (slowed (1 - damping config * dt) state) undamped dt /\
  shadowEnergy undamped dt (updateSpring state undamped dt) =
    shadowEnergy undamped dt state /\
  (0 <= stiffness config ->
     (1 - a) * energy undamped state <= shadowEnergy undamped dt state
     <= (1 + a) * energy undamped state) /\
  (0 <= stiffness config -> a < 1 ->
     forall n : nat,
       energy undamped
         (Nat.iter n (fun s => updateSpring s undamped dt) state)
       <= (1 + a) / (1 - a) * energy undamped state) /\
  (energy undamped120 springAtOne = 120 /\
   energy undamped120 (updateSpring springAtOne undamped120 1) = 1713720).
Proof.
  cbv zeta. split; [apply updateSpring_slowed|].
  split; [apply shadowEnergy_kept|].
  split; [intros Hk; now apply shadowEnergy_bounds|].
  split; [|exact energy_grows_at_long_steps].
  intros Hk Ha n.
  pose proof (shadowEnergy_bounds (stiffness config) dt state Hk) as H0.
  pose proof (shadowEnergy_bounds (stiffness config) dt
                (Nat.iter n
                   (fun s =>
                      updateSpring s
                        {| stiffness := stiffness config; damping := 0 |} dt)
                   state) Hk) as Hn.
  cbv zeta in H0, Hn. rewrite shadowEnergy_kept_n in Hn.
  set (a := sqrt (stiffness config) * Rabs dt / 2) in *.
  apply Rmult_le_reg_l with (1 - a); [lra|].
  match goal with
  | |- _ <= (1 - a) * ((1 + a) / (1 - a) * ?e) =>
      replace ((1 - a) * ((1 + a) / (1 - a) * e)) with ((1 + a) * e)
        by (field; lra)
  end.
  lra.
Qed.

(** X12. From a standstill one step takes the spring a fraction of the
    way to its target and no further: with the default configuration and
    a time step in (0, 0.033], the displacement from the target is
    multiplied by [1 - 120 dt^2], a factor strictly between 0 and 1. *)
Theorem updateSpring_from_standstill (state : SpringState R) (dt : R) :
  velocity state = mkPoint 0 0 ->
  0 < dt <= decimal 33 3 ->
  let state' := updateSpring state DEFAULT_SPRING_CONFIG dt in
  let r := 1 - 120 * dt * dt in
  0 < r < 1 /\
  vsub (position state') (target state') =
    vscale r (vsub (position state) (target state)).
Proof.
  intros Hv [Hdt0 Hdt1]. cbv zeta.
  change (decimal 33 3 : R) with (33 / IZR (10 ^ 3)) in Hdt1.
  replace (IZR (10 ^ 3)) with 1000 in Hdt1 by (cbn; lra).
  split.
  - assert (dt * dt <= 33 / 1000 * (33 / 1000)) by nra.
    assert (0 < dt * dt) by nra. lra.
  - destruct state as [p v tgt]. cbn in Hv. subst v.
    apply Point_eq; unfold updateSpring, vsub, vscale; cbn; ring.
Qed.

(** Over the reals a spring that stands at its target stays there. *)
Lemma updateSpring_rest_R (state : SpringState R)
    (config : SpringConfig R) (dt : R) :
  position state = target state -> velocity state = mkPoint 0 0 ->
  updateSpring state config dt = state.
Proof.
  intros Hp Hv. destruct state as [p v tgt]. cbn in Hp, Hv. subst p v.
  apply SpringState_eq; try reflexivity;
    apply Point_eq; unfold updateSpring; cbn; ring.
Qed.

Lemma isSettled_iff (state : SpringState R) (threshold : R) :
  isSettled state threshold = true <->
  magnitude (velocity state) < threshold /\
  getDistance (position state) (target state) < threshold.
Proof.
  unfold isSettled, magnitude, getDistance. cbn.
  rewrite andb_true_iff, !Rltb_true. reflexivity.
Qed.

Lemma getDistance_nonneg (p q : Point R) : 0 <= getDistance p q.
Proof. unfold getDistance; cbn. apply sqrt_pos. Qed.

(** X14. [isSettled] is true exactly when the speed and the distance to
    the target are both below the threshold; so it is never true for a
    threshold of zero or less, it is true of a spring just created for
    every positive threshold, and a larger threshold keeps it true. *)
Theorem isSettled_thresholds (state : SpringState R) (threshold : R) :
  (isSettled state threshold = true <->
     magnitude (velocity state) < threshold /\
     getDistance (position state) (target state) < threshold) /\
  (threshold <= 0 -> isSettled state threshold = false) /\
  (forall q, 0 < threshold ->
     isSettled (createSpringState q) threshold = true) /\
  (forall larger, threshold <= larger ->
     isSettled state threshold = true -> isSettled state larger = true).
Proof.
  split; [apply isSettled_iff|]. split; [|split].
  - intros Hth. apply not_true_is_false. intros Hs.
    apply isSettled_iff in Hs. destruct Hs as [Hv _].
    pose proof (magnitude_nonneg (velocity state)). lra.
  - intros q Hth. apply isSettled_iff.
    rewrite createSpringState_fields. cbn [velocity position target]. split.
    + replace (magnitude (mkPoint (of_Z 0) (of_Z 0))) with 0; [exact Hth|].
      symmetry. apply magnitude_zero_iff. now cbn.
    + replace (getDistance q q) with 0; [exact Hth|].
      unfold getDistance; cbn.
      replace ((x q - x q) * (x q - x q) + (y q - y q) * (y q - y q))
        with 0 by ring.
      now rewrite sqrt_0.
  - intros larger Hle Hs. apply isSettled_iff in Hs. apply isSettled_iff.
    destruct Hs. split; lra.
Qed.

Lemma cauchy_schwarz (a b c d : R) :
  a * c + b * d <= sqrt (a * a + b * b) * sqrt (c * c + d * d).
Proof.
  assert (H1 : 0 <= a * a + b * b) by nra.
  assert (H2 : 0 <= c * c + d * d) by nra.
  rewrite <- sqrt_mult by assumption.
  destruct (Rle_dec 0 (a * c + b * d)) as [Hpos|Hneg].
  - rewrite <- (sqrt_square (a * c + b * d)) at 1 by exact Hpos.
    apply sqrt_le_1; [nra|nra|].
    replace ((a * a + b * b) * (c * c + d * d))
      with ((a * c + b * d) * (a * c + b * d)
            + (a * d - b * c) * (a * d - b * c)) by ring.
    rewrite <- (Rplus_0_r ((a * c + b * d) * (a * c + b * d))) at 1.
    apply Rplus_le_compat_l. apply Rle_0_sqr.
  - pose proof (sqrt_pos ((a * a + b * b) * (c * c + d * d))). lra.
Qed.

Lemma magnitude_triangle (u v : Point R) :
  magnitude (vadd u v) <= magnitude u + magnitude v.
Proof.
  pose proof (magnitude_nonneg u) as Hu. pose proof (magnitude_nonneg v) as Hv.
  pose proof (magnitude_sqr u) as Su. pose proof (magnitude_sqr v) as Sv.
  pose proof (cauchy_schwarz (x u) (y u) (x v) (y v)) as Hcs.
  change (sqrt (x u * x u + y u * y u)) with (magnitude u) in Hcs.
  change (sqrt (x v * x v + y v * y v)) with (magnitude v) in Hcs.
  remember (magnitude u) as mu. remember (magnitude v) as mv.
  rewrite <- (sqrt_square (mu + mv)) by lra.
  unfold magnitude, vadd. cbn.
  apply sqrt_le_1.
  { apply Rplus_le_le_0_compat; apply Rle_0_sqr. }
  { apply Rle_0_sqr. }
  replace ((x u + x v) * (x u + x v) + (y u + y v) * (y u + y v))
    with ((x u * x u + y u * y u) + (x v * x v + y v * y v)
          + 2 * (x u * x v + y u * y v)) by ring.
  replace ((mu + mv) * (mu + mv)) with (mu * mu + mv * mv + 2 * (mu * mv))
    by ring.
  rewrite Su, Sv. lra.
Qed.

(** X15. [getDistance] is a distance: it is not negative, it is zero
    exactly between a point and itself, it is the same in both
    directions, and going through a third point is never shorter. *)
Theorem getDistance_is_a_metric (p q r : Point R) :
  0 <= getDistance p q /\
  (getDistance p q = 0 <-> p = q) /\
  getDistance p q = getDistance q p /\
  getDistance p r <= getDistance p q + getDistance q r.
Proof.
  assert (Hmag : forall a b, getDistance a b = magnitude (vsub a b))
    by reflexivity.
  split; [apply getDistance_nonneg|]. split; [|split].
  - rewrite Hmag, magnitude_zero_iff. unfold vsub; cbn. split.
    + intros [Hx Hy]. apply Point_eq; lra.
    + intros ->. split; ring.
  - unfold getDistance; cbn. f_equal. ring.
  - rewrite !Hmag.
    replace (vsub p r) with (vadd (vsub p q) (vsub q r))
      by (apply Point_eq; unfold vadd, vsub; cbn; ring).
    apply magnitude_triangle.
Qed.

End SpringDynamics.

(** ** The spring at rest in binary64 *)

Section SpringAtRest.

Local Open Scope js_scope.

Lemma finite_is_finite (a : F64.t) : F64.finite a = true -> F64.is_finite a = true.
Proof. unfold F64.finite. intros Ha. now apply andb_prop in Ha as [Ha _]. Qed.

Lemma sub_self_zero (a : F64.t) :
  F64.is_finite a = true -> F64.is_zero (a - a) = true.
Proof.
  destruct a as [[]| | |s m e]; try discriminate; intros _; try reflexivity.
  cbn [num_sub F64_Number]. unfold F64.sub, SFsub.
  now rewrite Z.sub_diag.
Qed.

Lemma mul_finite_zero (a z : F64.t) :
  F64.is_finite a = true -> F64.is_zero z = true -> F64.is_zero (a * z) = true.
Proof.
  destruct z as [sz| | |]; try discriminate.
  destruct a; try discriminate; reflexivity.
Qed.

Lemma mul_zero_finite (z a : F64.t) :
  F64.is_zero z = true -> F64.is_finite a = true -> F64.is_zero (z * a) = true.
Proof.
  destruct z as [sz| | |]; try discriminate.
  destruct a; try discriminate; reflexivity.
Qed.

Lemma neg_is_finite (a : F64.t) :
  F64.is_finite a = true -> F64.is_finite (- a) = true.
Proof. destruct a; try discriminate; reflexivity. Qed.

Lemma sub_zero_zero (z z' : F64.t) :
  F64.is_zero z = true -> F64.is_zero z' = true -> F64.is_zero (z - z') = true.
Proof.
  destruct z as [[]| | |], z' as [[]| | |]; try discriminate; reflexivity.
Qed.

Lemma add_zero_zero (z z' : F64.t) :
  F64.is_zero z = true -> F64.is_zero z' = true -> F64.is_zero (z + z') = true.
Proof.
  destruct z as [[]| | |], z' as [[]| | |]; try discriminate; reflexivity.
Qed.

Lemma add_finite_zero (a z : F64.t) :
  F64.is_finite a = true -> F64.is_zero z = true -> (a + z =? a) = true.
Proof.
  destruct z as [sz| | |]; try discriminate.
  destruct a as [[]| | |s m e]; try discriminate; intros _ _.
  - destruct sz; reflexivity.
  - destruct sz; reflexivity.
  - cbn [num_add F64_Number F64.add SFadd]. now apply SFeqb_finite_refl.
Qed.

(** One coordinate of a step from rest: the new velocity is a zero and
    the new position is the old one. *)
Lemma rest_coordinate (a k c dt : F64.t) :
  F64.is_finite a = true -> F64.is_finite k = true ->
  F64.is_finite c = true -> F64.is_finite dt = true ->
  let v' := of_Z 0 + (- k * (a - a) - c * of_Z 0) * dt in
  F64.is_zero v' = true /\ (a + v' * dt =? a) = true.
Proof.
  intros Ha Hk Hc Hdt. cbv zeta.
  assert (Hz0 : F64.is_zero (of_Z 0 : F64.t) = true) by reflexivity.
  assert (Hacc : F64.is_zero (- k * (a - a) - c * of_Z 0) = true).
  { apply sub_zero_zero.
    - apply mul_finite_zero; [now apply neg_is_finite|now apply sub_self_zero].
    - now apply mul_finite_zero. }
  assert (Hv : F64.is_zero (of_Z 0 + (- k * (a - a) - c * of_Z 0) * dt) = true).
  { apply add_zero_zero; [exact Hz0|]. now apply mul_zero_finite. }
  split; [exact Hv|].
  apply add_finite_zero; [exact Ha|]. now apply mul_zero_finite.
Qed.

Lemma updateSpring_rest_F64 (q : Point F64.t) (config : SpringConfig F64.t)
    (dt : F64.t) :
  finitePoint q = true ->
  F64.finite (stiffness config) = true -> F64.finite (damping config) = true ->
  F64.finite dt = true ->
  let state' := updateSpring (createSpringState q) config dt in
  strictEqual (position state') q = true /\
  F64.is_zero (x (velocity state')) = true /\
  F64.is_zero (y (velocity state')) = true /\
  target state' = q.
Proof.
  unfold finitePoint. intros Hq Hk Hc Hdt. cbv zeta.
  apply andb_prop in Hq as [Hx Hy].
  apply finite_is_finite in Hx, Hy, Hk, Hc, Hdt.
  destruct (rest_coordinate (x q) (stiffness config) (damping config) dt
              Hx Hk Hc Hdt) as [Vx Px].
  destruct (rest_coordinate (y q) (stiffness config) (damping config) dt
              Hy Hk Hc Hdt) as [Vy Py].
  cbv zeta in Vx, Px, Vy, Py.
  destruct q as [qx qy]. unfold strictEqual, updateSpring, createSpringState.
  cbn [position velocity target x y] in *.
  rewrite Px, Py. repeat split; assumption.
Qed.

End SpringAtRest.

(** X13. A spring that stands at its target stays there.  Over the reals
    a step of any length with any configuration returns the same state;
    in binary64, for a finite point, configuration and time step, the
    position comes back [===] the point, both velocity coordinates come
    back zero and the target is untouched. *)
Theorem updateSpring_rest_is_fixed :
  (forall (state : SpringState R) (config : SpringConfig R) (dt : R),
     position state = target state -> velocity state = mkPoint 0%R 0%R ->
     updateSpring state config dt = state) /\
  (forall (q : Point F64.t) (config : SpringConfig F64.t) (dt : F64.t),
     finitePoint q = true ->
     F64.finite (stiffness config) = true ->
     F64.finite (damping config) = true ->
     F64.finite dt = true ->
     let state' := updateSpring (createSpringState q) config dt in
     strictEqual (position state') q = true /\
     F64.is_zero (x (velocity state')) = true /\
     F64.is_zero (y (velocity state')) = true /\
     target state' = q).
Proof. split; [apply updateSpring_rest_R|apply updateSpring_rest_F64]. Qed.

(** ** The controller and the scheduler *)

Section ControllerEdges.

Local Open Scope js_scope.

(** X16. Targets and impulses compose: the last target set is the one
    that counts, setting a target and applying an impulse can be done in
    either order, and over the reals two impulses amount to one impulse
    of their sum while a zero impulse changes nothing. *)
Theorem target_and_impulse_compose :
  (forall (num : Type) (N : Number num) (state : SpringState num)
          (a b impulse : Point num),
     setSpringTarget (setSpringTarget state a) b = setSpringTarget state b /\
     applyImpulse (setSpringTarget state a) impulse =
       setSpringTarget (applyImpulse state impulse) a) /\
  (forall (state : SpringState R) (a b : Point R),
     applyImpulse (applyImpulse state a) b = applyImpulse state (vadd a b) /\
     applyImpulse state (mkPoint 0%R 0%R) = state).
Proof.
  split.
  - intros num N state a b impulse. split; reflexivity.
  - intros state a b. split.
    + apply SpringState_eq; try reflexivity.
      apply Point_eq; unfold applyImpulse, vadd; cbn; ring.
    + apply SpringState_eq; try reflexivity.
      apply Point_eq; unfold applyImpulse; cbn; ring.
Qed.

(** X17. The controller keeps no history of the pointer: after any
    pointer update, a second one leaves the component exactly where the
    second one alone would have left it. *)
Theorem handlePointerMove_last_wins {num : Type} `{Number num}
    (host : Host num) (st : Canvas num) (x1 y1 x2 y2 : num) :
  handlePointerMove host (handlePointerMove host st x1 y1) x2 y2 =
    handlePointerMove host st x2 y2.
Proof.
  unfold handlePointerMove.
  destruct (container host) as [rect|]; [|reflexivity].
  destruct (spring1Ref st) as [spring1|] eqn:E1;
    [|rewrite E1; reflexivity].
  destruct (spring2Ref st) as [spring2|] eqn:E2;
    [|rewrite E1, E2; reflexivity].
  match goal with
  | |- context [if ?c then _ else _] => destruct c
  end; cbn [spring1Ref spring2Ref setSprings setSpringTarget position
            baseP1Ref baseP2Ref];
    match goal with
    | |- context [if ?c then _ else _] => destruct c
    end; reflexivity.
Qed.

Lemma animate_not_ready {num : Type} `{Number num}
    (fuel : nat) (host : Host num) (st : Canvas num) (timestamp : num) :
  ~ ready host st -> animate fuel host st timestamp = (st, Skipped).
Proof.
  intros Hnot. unfold animate.
  destruct (canvas host) as [[cw ch]|] eqn:Ec; [|reflexivity].
  destruct (context2d host) eqn:Ex; [|reflexivity].
  destruct (spring1Ref st) as [s1|] eqn:E1; [|reflexivity].
  destruct (spring2Ref st) as [s2|] eqn:E2; [|reflexivity].
  exfalso. apply Hnot. unfold ready. rewrite Ec, Ex, E1, E2.
  repeat split; eauto.
Qed.

Lemma run_not_ready {num : Type} `{Number num}
    (fuel : nat) (host : Host num) (st : Canvas num) (timestamps : list num) :
  ~ ready host st ->
  run fuel host st timestamps = (st, repeat Skipped (List.length timestamps)).
Proof.
  intros Hnot. induction timestamps as [|t later IH]; [reflexivity|].
  cbn [run]. rewrite (animate_not_ready fuel host st t Hnot).
  cbn [commit]. rewrite IH. reflexivity.
Qed.

(** X18. Until the canvas, its context and both springs are in place,
    every animation frame returns at once and changes nothing; and before
    the first resize the component ignores the pointer as well. *)
Theorem component_inert_until_ready {num : Type} `{Number num}
    (fuel : nat) (host : Host num) (st : Canvas num) (timestamps : list num) :
  ~ ready host st ->
  run fuel host st timestamps = (st, repeat Skipped (List.length timestamps)) /\
  (forall targetFps clientX clientY,
     handlePointerMove host (BezierCanvas targetFps) clientX clientY =
       BezierCanvas targetFps).
Proof.
  intros Hnot. split; [now apply run_not_ready|].
  intros targetFps clientX clientY. unfold handlePointerMove.
  destruct (container host); reflexivity.
Qed.

Lemma SFltb_leb (a b : F64.t) : SFltb a b = true -> SFleb a b = true.
Proof. unfold SFltb, SFleb. destruct (SFcompare a b) as [[]|]; easy. Qed.

Lemma min_cap (a : F64.t) :
  F64.is_nan (Math_min a (decimal 33 3)) = true \/
  (Math_min a (decimal 33 3) <=? decimal 33 3) = true.
Proof.
  cbn [Math_min F64_Number]. unfold F64.min.
  destruct a as [sa|sa| |sa m e]; [right|right|left; reflexivity|right].
  - destruct sa; reflexivity.
  - destruct sa; reflexivity.
  - change (decimal 33 3 : F64.t)
      with (S754_finite false 4755801206503244 (-57)).
    destruct (SFltb (S754_finite sa m e)
                (S754_finite false 4755801206503244 (-57))) eqn:Hlt.
    + now apply SFltb_leb.
    + destruct (SFltb (S754_finite false 4755801206503244 (-57))
                  (S754_finite sa m e)); reflexivity.
Qed.

Lemma animate_step (num : Type) (N : Number num)
    (fuel : nat) (host : Host num) (st : Canvas num) (t dt : num) :
  tickStep (snd (animate fuel host st t)) = Some dt ->
  dt = Math_min (if truthy (lastTimeRef st)
                 then (t - lastTimeRef st) / of_Z 1000
                 else decimal 16 3)
                (decimal 33 3).
Proof.
  unfold animate.
  destruct (canvas host) as [[cw ch]|]; [|discriminate].
  destruct (context2d host); [|discriminate].
  destruct (spring1Ref st); [|discriminate].
  destruct (spring2Ref st); [|discriminate].
  destruct (t - lastRenderTimeRef st <? frameIntervalRef st); [discriminate|].
  cbn [snd tickStep]. intros Hd. now injection Hd as <-.
Qed.

(** X19. [animate] never advances the physics by more than 0.033
    seconds.  Over the reals the time step of a tick is at most 0.033,
    and it is positive when the tick comes after the one on record; in
    binary64 it is at most 0.033 or NaN. *)
Theorem animate_step_is_capped :
  (forall (fuel : nat) (host : Host R) (st : Canvas R) (t dt : R),
     tickStep (snd (animate fuel host st t)) = Some dt ->
     (dt <= 33 / 1000)%R /\ ((lastTimeRef st < t)%R -> (0 < dt)%R)) /\
  (forall (fuel : nat) (host : Host F64.t) (st : Canvas F64.t) (t dt : F64.t),
     tickStep (snd (animate fuel host st t)) = Some dt ->
     F64.is_nan dt = true \/ (dt <=? decimal 33 3) = true).
Proof.
  split.
  - intros fuel host st t dt Hd. apply animate_step in Hd. subst dt.
    cbn [Math_min R_Number decimal].
    replace (IZR 33 / IZR (10 ^ Z.of_nat 3))%R with (33 / 1000)%R
      by (cbn; lra).
    replace (IZR 16 / IZR (10 ^ Z.of_nat 3))%R with (16 / 1000)%R
      by (cbn; lra).
    split; [apply Rmin_r|].
    intros Hlt. apply Rmin_glb_lt; [|lra].
    destruct (truthy (lastTimeRef st)); cbn; lra.
  - intros fuel host st t dt Hd. apply animate_step in Hd. subst dt.
    apply min_cap.
Qed.

End ControllerEdges.

(** ** The tick grid over the reals *)

Section TickGrid.

Local Open Scope R_scope.

Lemma Rtrunc_floor (r : R) :
  0 <= r -> IZR (Rtrunc r) <= r < IZR (Rtrunc r) + 1.
Proof.
  intros Hr. unfold Rtrunc. destruct (Rle_dec 0 r) as [_|Hn]; [|easy].
  destruct (base_Int_part r) as [Hle Hgt]. lra.
Qed.

(** X20. Ticks stay on a grid: when a tick fires, the recorded time of
    the last tick advances by a whole number [k >= 1] of frame intervals,
    and ends up at most one interval behind the timestamp, so lateness
    does not add up from tick to tick. *)
Theorem animate_keeps_the_grid
    (fuel : nat) (host : Host R) (st : Canvas R) (t : R) :
  ready host st ->
  0 < frameIntervalRef st ->
  frameIntervalRef st <= t - lastRenderTimeRef st ->
  let last' := lastRenderTimeRef (fst (animate fuel host st t)) in
  exists k : Z,
    (1 <= k)%Z /\
    last' = lastRenderTimeRef st + IZR k * frameIntervalRef st /\
    last' <= t < last' + frameIntervalRef st.
Proof.
  intros Hready Hint Hfire. cbv zeta.
  destruct Hready as (Hcv & Hctx & [s1 H1] & [s2 H2]).
  assert (Hge : num_ltb (num_sub t (lastRenderTimeRef st)) (frameIntervalRef st)
                = false) by (apply Rltb_false; exact Hfire).
  pose proof (animate_fires fuel host st t s1 s2 Hcv Hctx H1 H2 Hge)
    as (_ & Hr & _).
  cbv zeta in Hr. rewrite Hr.
  change (num_sub t (num_rem (num_sub t (lastRenderTimeRef st))
                       (frameIntervalRef st)))
    with (t - Rrem (t - lastRenderTimeRef st) (frameIntervalRef st)).
  unfold Rrem.
  set (e := t - lastRenderTimeRef st) in *.
  set (i := frameIntervalRef st) in *.
  assert (Hq : 1 <= e / i).
  { apply Rmult_le_reg_r with i; [exact Hint|].
    replace (e / i * i) with e by (field; lra). lra. }
  destruct (Rtrunc_floor (e / i)) as [Hlo Hhi]; [lra|].
  exists (Rtrunc (e / i)).
  assert (Hmul_lo : i * IZR (Rtrunc (e / i)) <= e).
  { replace e with (i * (e / i)) at 2 by (field; lra).
    apply Rmult_le_compat_l; lra. }
  assert (Hmul_hi : e < i * (IZR (Rtrunc (e / i)) + 1)).
  { replace e with (i * (e / i)) at 1 by (field; lra).
    apply Rmult_lt_compat_l; lra. }
  split; [|split].
  - assert (0 < Rtrunc (e / i))%Z by (apply lt_IZR; lra). lia.
  - unfold e. ring.
  - unfold e in *. lra.
Qed.

End TickGrid.

(** ** What a frame draws *)

Section FrameDrawing.

Local Open Scope js_scope.

Lemma lineToCalls_app {num : Type} (a b : list (DrawOp num)) :
  lineToCalls (a ++ b) = (lineToCalls a + lineToCalls b)%nat.
Proof. unfold lineToCalls. now rewrite filter_app, length_app. Qed.

Lemma moveToCalls_app {num : Type} (a b : list (DrawOp num)) :
  moveToCalls (a ++ b) = (moveToCalls a + moveToCalls b)%nat.
Proof. unfold moveToCalls. now rewrite filter_app, length_app. Qed.

Lemma lineToCalls_polyline {num : Type} (points : list (Point num)) :
  lineToCalls (map (fun q => LineTo (x q) (y q)) points) = List.length points /\
  moveToCalls (map (fun q => LineTo (x q) (y q)) points) = 0%nat.
Proof.
  unfold lineToCalls, moveToCalls.
  induction points as [|q points [IH1 IH2]]; [split; reflexivity|].
  cbn. split; [now rewrite IH1|exact IH2].
Qed.

Lemma drawCurve_of_points {num : Type} `{Number num}
    (fuel : nat) (p0 p1 p2 p3 first : Point num) (rest : list (Point num)) :
  sampleBezierCurve fuel p0 p1 p2 p3 (of_Z 150) = Some (first :: rest) ->
  exists ops,
    drawCurve fuel p0 p1 p2 p3 = Some ops /\
    moveToCalls ops = 2%nat /\
    lineToCalls ops = (2 * List.length rest)%nat.
Proof.
  intros Hs. unfold drawCurve. rewrite Hs. eexists. split; [reflexivity|].
  destruct (lineToCalls_polyline rest) as [Hl Hm].
  rewrite !moveToCalls_app, !lineToCalls_app, Hl, Hm. cbn. split; lia.
Qed.

Lemma drawCurve_R (p0 p1 p2 p3 : Point R) (fuel : nat) :
  (152 <= fuel)%nat ->
  exists ops,
    drawCurve fuel p0 p1 p2 p3 = Some ops /\
    moveToCalls ops = 2%nat /\ lineToCalls ops = 300%nat.
Proof.
  intros Hfuel.
  assert (Hs : sampleBezierCurve fuel p0 p1 p2 p3 (of_Z 150) =
               Some (map (fun k => bezierPoint p0 p1 p2 p3
                                     (INR k / INR 150)%R) (seq 0 151))).
  { change (of_Z 150) with (IZR (Z.of_nat 150)). rewrite <- INR_IZR_INZ.
    apply sampleBezierCurve_count. lia. }
  change (seq 0 151) with (0%nat :: seq 1 150) in Hs. cbn [map] in Hs.
  destruct (drawCurve_of_points fuel p0 p1 p2 p3 _ _ Hs)
    as (ops & Hops & Hm & Hl).
  exists ops. rewrite length_map, length_seq in Hl. repeat split; assumption.
Qed.

Lemma drawCurve_F64 (p0 p1 p2 p3 : Point F64.t) (fuel : nat) :
  (152 <= fuel)%nat ->
  exists ops,
    drawCurve fuel p0 p1 p2 p3 = Some ops /\
    moveToCalls ops = 2%nat /\ lineToCalls ops = 300%nat.
Proof.
  intros Hfuel.
  destruct (counters_F64 150 fuel) as [Hloop _]; [lia|lia|].
  assert (Hs : sampleBezierCurve fuel p0 p1 p2 p3 (of_Z 150) =
               Some (map (fun k => bezierPoint p0 p1 p2 p3
                                     (of_Z (Z.of_nat k) / of_Z 150))
                       (seq 0 151))).
  { rewrite sampleBezierCurve_map.
    change (of_Z 150 : F64.t) with (of_Z (Z.of_nat 150) : F64.t).
    rewrite Hloop. cbn [option_map]. now rewrite map_map. }
  change (seq 0 151) with (0%nat :: seq 1 150) in Hs. cbn [map] in Hs.
  destruct (drawCurve_of_points fuel p0 p1 p2 p3 _ _ Hs)
    as (ops & Hops & Hm & Hl).
  exists ops. rewrite length_map, length_seq in Hl. repeat split; assumption.
Qed.

(** X21. [drawCurve] never reads from an empty array of samples: for all
    control points, over the reals and in binary64, it moves to the first
    of 151 samples and strokes the 150 segments of the polyline, once for
    the glow and once for the curve. *)
Theorem drawCurve_strokes_the_polyline_twice :
  (forall (p0 p1 p2 p3 : Point R) (fuel : nat),
     (152 <= fuel)%nat ->
     exists ops,
       drawCurve fuel p0 p1 p2 p3 = Some ops /\
       moveToCalls ops = 2%nat /\ lineToCalls ops = 300%nat) /\
  (forall (p0 p1 p2 p3 : Point F64.t) (fuel : nat),
     (152 <= fuel)%nat ->
     exists ops,
       drawCurve fuel p0 p1 p2 p3 = Some ops /\
       moveToCalls ops = 2%nat /\ lineToCalls ops = 300%nat).
Proof. split; [apply drawCurve_R|apply drawCurve_F64]. Qed.

(** The loop in strides of [s]: from [k * s] up to the last multiple of
    [s] that does not exceed the bound. *)
Lemma for_le_stride (B : Type) (body : R -> B) (s w : R) (n d : nat) :
  (0 < s)%R -> (INR n * s <= w < INR (S n) * s)%R ->
  forall (k : nat) (acc : list B) (fuel : nat),
    (k + d = S n)%nat -> (d < fuel)%nat ->
    for_le fuel (INR k * s)%R w s body acc =
      Some (acc ++ map (fun j => body (INR j * s)%R) (seq k d)).
Proof.
  intros Hs [Hlo Hhi].
  induction d as [|d IH]; intros k acc fuel Hk Hfuel.
  - destruct fuel as [|fuel]; [lia|]. cbn [for_le].
    change (num_leb (INR k * s)%R w) with (Rleb (INR k * s) w).
    replace (Rleb (INR k * s) w) with false.
    + cbn. now rewrite app_nil_r.
    + symmetry. apply Rleb_false. replace k with (S n) by lia. exact Hhi.
  - destruct fuel as [|fuel]; [lia|]. cbn [for_le].
    change (num_leb (INR k * s)%R w) with (Rleb (INR k * s) w).
    replace (Rleb (INR k * s) w) with true.
    + change (num_add (INR k * s)%R s) with (INR k * s + s)%R.
      replace (INR k * s + s)%R with (INR (S k) * s)%R
        by (rewrite S_INR; ring).
      rewrite IH by lia. cbn [seq map]. now rewrite <- app_assoc.
    + symmetry. apply Rleb_true.
      apply Rle_trans with (INR n * s)%R; [|exact Hlo].
      apply Rmult_le_compat_r; [lra|]. apply le_INR. lia.
Qed.

Lemma gridLines_calls (starts : list R) (line : R -> list (DrawOp R)) :
  (forall a, lineToCalls (line a) = 1%nat /\ moveToCalls (line a) = 1%nat) ->
  lineToCalls (List.concat (map line starts)) = List.length starts /\
  moveToCalls (List.concat (map line starts)) = List.length starts.
Proof.
  intros Hline. induction starts as [|a starts [IH1 IH2]]; [split; reflexivity|].
  cbn [map List.concat List.length].
  rewrite lineToCalls_app, moveToCalls_app, IH1, IH2.
  destruct (Hline a) as [-> ->]. split; reflexivity.
Qed.

Lemma drawGrid_R (w h : R) (nw nh fuel : nat) :
  (INR nw * 40 <= w < INR (S nw) * 40)%R ->
  (INR nh * 40 <= h < INR (S nh) * 40)%R ->
  (S nw < fuel)%nat -> (S nh < fuel)%nat ->
  exists ops,
    drawGrid fuel w h = Some ops /\
    lineToCalls ops = (S nw + S nh)%nat /\
    moveToCalls ops = (S nw + S nh)%nat.
Proof.
  intros Hw Hh Hfw Hfh. unfold drawGrid. cbv zeta.
  change (of_Z 40 : R) with 40%R.
  replace (of_Z 0 : R) with (INR 0 * 40)%R by (cbn; ring).
  rewrite (for_le_stride _ _ 40%R w nw (S nw) ltac:(lra) Hw 0%nat [] fuel)
    by lia.
  rewrite (for_le_stride _ _ 40%R h nh (S nh) ltac:(lra) Hh 0%nat [] fuel)
    by lia.
  eexists. split; [reflexivity|].
  destruct (gridLines_calls (map (fun j => (INR j * 40)%R) (seq 0 (S nw)))
              (fun x0 => [BeginPath; MoveTo x0 (INR 0 * 40)%R; LineTo x0 h; Stroke])
              ltac:(intros; split; reflexivity)) as [V1 V2].
  destruct (gridLines_calls (map (fun j => (INR j * 40)%R) (seq 0 (S nh)))
              (fun y0 => [BeginPath; MoveTo (INR 0 * 40)%R y0; LineTo w y0; Stroke])
              ltac:(intros; split; reflexivity)) as [H1 H2].
  rewrite !map_map in V1, V2, H1, H2.
  rewrite !length_map, !length_seq in V1, V2, H1, H2.
  rewrite !lineToCalls_app, !moveToCalls_app, !app_nil_l.
  rewrite V1, V2, H1, H2. split; reflexivity.
Qed.

(** X22. [drawGrid] always finishes on a surface of known size: when the
    width holds [nw] whole cells of 40 and the height [nh], it draws
    [nw + 1] vertical and [nh + 1] horizontal lines, one [moveTo] and one
    [lineTo] each. *)
Theorem drawGrid_lines (w h : R) (nw nh fuel : nat) :
  (INR nw * 40 <= w < INR (S nw) * 40)%R ->
  (INR nh * 40 <= h < INR (S nh) * 40)%R ->
  (S nw < fuel)%nat -> (S nh < fuel)%nat ->
  exists ops,
    drawGrid fuel w h = Some ops /\
    lineToCalls ops = (S nw + S nh)%nat /\
    moveToCalls ops = (S nw + S nh)%nat.
Proof. apply drawGrid_R. Qed.


End FrameDrawing.

(** ** The further properties at concrete inputs *)

(** Halfway along the arch the curve is inside the box 0..4 by 0..2. *)
Lemma bezierPoint_in_bounding_box_example :
  (0 <= x (bezierPoint archP0 archP1 archP2 archP3 (1 / 2)) <= 4)%R /\
  (0 <= y (bezierPoint archP0 archP1 archP2 archP3 (1 / 2)) <= 2)%R.
Proof.
  apply (bezierPoint_in_bounding_box archP0 archP1 archP2 archP3
           (1 / 2)%R 0%R 4%R 0%R 2%R); [lra|].
  intros p [<-|[<-|[<-|[<-|[]]]]]; cbn; lra.
Defined.

Lemma normalize_direction_only_example :
  normalize (vscale 2%R (mkPoint 3%R 4%R)) = normalize (mkPoint 3%R 4%R) /\
  normalize (normalize (mkPoint 3%R 4%R)) = normalize (mkPoint 3%R 4%R).
Proof. apply (normalize_direction_only 2%R (mkPoint 3%R 4%R)). lra. Defined.

(** The spring pulled from (0,0) towards (100,0), after a step of 0.016. *)
Lemma updateSpring_from_standstill_example :
  let state' := updateSpring springPulled DEFAULT_SPRING_CONFIG (decimal 16 3) in
  let r := (1 - 120 * decimal 16 3 * decimal 16 3)%R in
  (0 < r < 1)%R /\
  vsub (position state') (target state') =
    vscale r (vsub (position springPulled) (target springPulled)).
Proof.
  apply (updateSpring_from_standstill springPulled (decimal 16 3));
    [reflexivity|].
  change (decimal 16 3 : R) with (16 / IZR (10 ^ 3))%R.
  change (decimal 33 3 : R) with (33 / IZR (10 ^ 3))%R.
  replace (IZR (10 ^ 3)) with 1000%R by (cbn; lra). lra.
Defined.

Lemma component_inert_example :
  run 10 hostNoContext mountedR800 [0%R; 17%R; 34%R] =
    (mountedR800, [Skipped; Skipped; Skipped]) /\
  (forall targetFps clientX clientY,
     handlePointerMove hostNoContext (BezierCanvas targetFps) clientX clientY =
       BezierCanvas targetFps).
Proof.
  apply (component_inert_until_ready 10 hostNoContext mountedR800
           [0%R; 17%R; 34%R]).
  intros (_ & Hctx & _). discriminate Hctx.
Defined.

Lemma mountedR800_ready : ready hostR800 mountedR800.
Proof. apply mounted_ready; [eexists| |eexists]; reflexivity. Qed.

Lemma mountedR800_fires : (frameIntervalRef mountedR800 <= 17 - lastRenderTimeRef mountedR800)%R.
Proof. cbn. lra. Qed.

Lemma animate_keeps_the_grid_example :
  let last' := lastRenderTimeRef (fst (animate 200 hostR800 mountedR800 17%R)) in
  exists k : Z,
    (1 <= k)%Z /\
    last' = (lastRenderTimeRef mountedR800
             + IZR k * frameIntervalRef mountedR800)%R /\
    (last' <= 17 < last' + frameIntervalRef mountedR800)%R.
Proof.
  apply (animate_keeps_the_grid 200 hostR800 mountedR800 17%R).
  - exact mountedR800_ready.
  - cbn. lra.
  - exact mountedR800_fires.
Defined.

Lemma grid_800 : (INR 20 * 40 <= 800 < INR 21 * 40)%R.
Proof. rewrite !INR_IZR_INZ. cbn. lra. Qed.

Lemma grid_600 : (INR 15 * 40 <= 600 < INR 16 * 40)%R.
Proof. rewrite !INR_IZR_INZ. cbn. lra. Qed.

Lemma drawGrid_lines_example :
  exists ops,
    drawGrid 30 800%R 600%R = Some ops /\
    lineToCalls ops = 37%nat /\ moveToCalls ops = 37%nat.
Proof.
  apply (drawGrid_lines 800%R 600%R 20 15 30 grid_800 grid_600); lia.
Defined.


(** ** The layout and the idle component over the reals *)

Section LayoutAndIdle.

Local Open Scope R_scope.

(** X24. After a resize to [w] by [h] the four control points are
    equally spaced across the surface between margins of 100, a third of
    [w - 200] apart; the endpoints lie on the horizontal centre line, P1
    rests 150 above it and P2 150 below (y grows downwards); and they run
    from left to right exactly when [w > 200]. *)
Theorem initializePositions_layout (st : Canvas R) (w h : R) :
  let st' := initializePositions st w h in
  let third := (w - 200) / 3 in
  x (p0Ref st') = 100 /\
  x (baseP1Ref st') - x (p0Ref st') = third /\
  x (baseP2Ref st') - x (baseP1Ref st') = third /\
  x (p3Ref st') - x (baseP2Ref st') = third /\
  y (p0Ref st') = h / 2 /\ y (p3Ref st') = h / 2 /\
  y (baseP1Ref st') = h / 2 - 150 /\ y (baseP2Ref st') = h / 2 + 150 /\
  (x (p0Ref st') < x (baseP1Ref st') < x (baseP2Ref st') /\
   x (baseP2Ref st') < x (p3Ref st') <-> 200 < w).
Proof.
  cbv zeta. unfold initializePositions. cbn.
  repeat split; try (field || lra); intros; lra.
Qed.

Lemma setSprings_same (st : Canvas R) (s1 s2 : SpringState R) :
  spring1Ref st = Some s1 -> spring2Ref st = Some s2 -> setSprings st s1 s2 = st.
Proof. destruct st; cbn; intros -> ->; reflexivity. Qed.

(** X25. The centre of the surface is the pointer's neutral position:
    with the pointer there, both springs get their base positions as
    targets, whichever is nearer; so a component whose springs already
    aim at their bases is left as it is. *)
Theorem handlePointerMove_centre_is_neutral
    (host : Host R) (st : Canvas R) (rect : DOMRect R)
    (spring1 spring2 : SpringState R) :
  container host = Some rect ->
  spring1Ref st = Some spring1 ->
  spring2Ref st = Some spring2 ->
  let st' := handlePointerMove host st
               (left rect + width rect / 2) (top rect + height rect / 2) in
  spring1Ref st' = Some (setSpringTarget spring1 (baseP1Ref st)) /\
  spring2Ref st' = Some (setSpringTarget spring2 (baseP2Ref st)) /\
  (target spring1 = baseP1Ref st -> target spring2 = baseP2Ref st -> st' = st).
Proof.
  intros Hc H1 H2. cbv zeta.
  assert (Hactive : forall (s : SpringState R) (b : Point R) (kx ky : R),
            setSpringTarget s
              {| x := x b + (left rect + width rect / 2 - left rect
                             - width rect / 2) * decimal 3 1 * kx;
                 y := y b + (top rect + height rect / 2 - top rect
                             - height rect / 2) * decimal 3 1 * ky |}
            = setSpringTarget s b).
  { intros s b kx ky. unfold setSpringTarget. cbn [x y]. f_equal.
    apply Point_eq; cbn; ring. }
  assert (Hmove : handlePointerMove host st (left rect + width rect / 2)
                    (top rect + height rect / 2)
                  = setSprings st (setSpringTarget spring1 (baseP1Ref st))
                      (setSpringTarget spring2 (baseP2Ref st))).
  { unfold handlePointerMove. rewrite Hc, H1, H2. cbn [x y].
    match goal with |- context [if ?c then _ else _] => destruct c end;
      change (@of_Z R R_Number 2) with 2;
      change (@num_add R R_Number) with Rplus;
      change (@num_sub R R_Number) with Rminus;
      change (@num_mul R R_Number) with Rmult;
      change (@num_div R R_Number) with Rdiv;
      rewrite Hactive; reflexivity. }
  rewrite Hmove. split; [reflexivity|]. split; [reflexivity|].
  intros T1 T2.
  assert (S1 : setSpringTarget spring1 (baseP1Ref st) = spring1).
  { rewrite <- T1. destruct spring1 as [p v [tx ty]]. reflexivity. }
  assert (S2 : setSpringTarget spring2 (baseP2Ref st) = spring2).
  { rewrite <- T2. destruct spring2 as [p v [tx ty]]. reflexivity. }
  rewrite S1, S2. now apply setSprings_same.
Qed.

(** A tick leaves springs that stand at their targets, and everything
    else the curve is drawn from, as they are. *)
Lemma animate_idle (fuel : nat) (host : Host R) (st : Canvas R) (t : R)
    (spring1 spring2 : SpringState R) :
  spring1Ref st = Some spring1 -> spring2Ref st = Some spring2 ->
  position spring1 = target spring1 -> velocity spring1 = mkPoint 0 0 ->
  position spring2 = target spring2 -> velocity spring2 = mkPoint 0 0 ->
  geometry (fst (animate fuel host st t)) = geometry st.
Proof.
  intros H1 H2 P1 V1 P2 V2. unfold animate.
  destruct (canvas host) as [[cw ch]|]; [|reflexivity].
  destruct (context2d host); [|reflexivity].
  rewrite H1, H2.
  match goal with |- context [if ?c then _ else _] => destruct c end;
    [reflexivity|].
  unfold geometry.
  cbn [fst p0Ref p3Ref baseP1Ref baseP2Ref spring1Ref spring2Ref].
  rewrite !updateSpring_rest_R by assumption. now rewrite H1, H2.
Qed.

Lemma run_laid_out (fuel : nat) (host : Host R) (cv : R * R) (rect : DOMRect R)
    (st0 : Canvas R) (timestamps : list R) :
  canvas host = Some cv -> container host = Some rect ->
  forall st : Canvas R,
    geometry st = geometry (initializePositions st0 (width rect) (height rect)) ->
    geometry (fst (run fuel host st timestamps)) =
      geometry (initializePositions st0 (width rect) (height rect)).
Proof.
  intros Hcv Hrect.
  induction timestamps as [|t later IH]; intros st Hst; [exact Hst|].
  cbn [run].
  assert (Ha : geometry (fst (animate fuel host st t)) = geometry st).
  { unfold geometry in Hst. cbn [initializePositions p0Ref p3Ref baseP1Ref
      baseP2Ref spring1Ref spring2Ref] in Hst.
    injection Hst as _ _ _ _ H1 H2.
    apply (animate_idle fuel host st t _ _ H1 H2); reflexivity. }
  destruct (animate fuel host st t) as [st1 o]. cbn [fst] in Ha.
  assert (Hc : geometry (commit host st t st1 o) =
               geometry (initializePositions st0 (width rect) (height rect))).
  { unfold commit, setupEffect, handleResize. rewrite Hcv, Hrect.
    destruct o; [now rewrite Ha|].
    match goal with |- context [if ?c then _ else _] => destruct c end;
      [reflexivity|now rewrite Ha]. }
  specialize (IH _ Hc).
  destruct (run fuel host (commit host st t st1 o) later) as [st2 os].
  exact IH.
Qed.

(** X26. A component that has been laid out and not touched since stands
    still: after [handleResize], with the container in place, no sequence
    of animation frames changes the endpoints, the base positions or the
    springs, whatever the timestamps, also across the frames after which
    the displayed rate changes and the setup effect runs again. *)
Theorem run_idle (fuel : nat) (host : Host R) (rect : DOMRect R)
    (st0 : Canvas R) (timestamps : list R) :
  container host = Some rect ->
  geometry (fst (run fuel host (handleResize host st0) timestamps)) =
    geometry (handleResize host st0).
Proof.
  intros Hrect. destruct (canvas host) as [cv|] eqn:Hcv.
  - unfold handleResize. rewrite Hcv, Hrect.
    now apply (run_laid_out fuel host cv rect st0 timestamps Hcv Hrect).
  - rewrite run_not_ready; [reflexivity|].
    intros ([cv' Hcv'] & _). congruence.
Qed.

Lemma Object_is_R (a b : R) : Object_is a b = true <-> a = b.
Proof.
  unfold Object_is. cbn [num_eqb R_Number].
  destruct (Reqb a b) eqn:Eab.
  - apply Reqb_true in Eab. subst b. split; [reflexivity|intros _].
    apply orb_true_iff. right. now apply Reqb_true.
  - apply Reqb_false in Eab. split; [|contradiction].
    assert (Haa : Reqb a a = true) by now apply Reqb_true.
    rewrite Haa. discriminate.
Qed.

End LayoutAndIdle.

(** ** The displayed rate and the setup effect *)

Section Rerender.

Context {num : Type} `{Number num}.
Local Open Scope js_scope.

(** X27. A tick that closes a second of the meter with a count other
    than the rate displayed makes the component render again, and the
    setup effect that follows calls [handleResize]: the run is left with
    both springs at rest on their base positions, whatever they were
    doing, and with the new count as the rate displayed.  A tick that
    does not close a second, or closes it with the count displayed, is
    followed by no effect. *)
Theorem fps_change_resets_the_springs
    (fuel : nat) (host : Host num) (st : Canvas num) (t : num)
    (rect : DOMRect num) :
  ready host st ->
  container host = Some rect ->
  (t - lastRenderTimeRef st <? frameIntervalRef st) = false ->
  let closes := t - fpsTimeRef st >=? of_Z 1000 in
  let same := Object_is (fpsCountRef st + of_Z 1) (fps st) in
  let st' := fst (run fuel host st [t]) in
  (closes = true -> same = false ->
     st' = handleResize host (fst (animate fuel host st t)) /\
     spring1Ref st' = Some (createSpringState (baseP1Ref st')) /\
     spring2Ref st' = Some (createSpringState (baseP2Ref st')) /\
     fps st' = fpsCountRef st + of_Z 1) /\
  (closes = false \/ same = true -> st' = fst (animate fuel host st t)).
Proof.
  intros Hready Hrect Hfire. cbv zeta.
  destruct Hready as ([[cw ch] Hcv] & Hctx & [s1 H1] & [s2 H2]).
  cbn [run]. unfold animate. rewrite Hcv, Hctx, H1, H2, Hfire.
  cbn [fst commit]. split.
  - intros Hcloses Hsame. rewrite Hcloses, Hsame. cbn [andb negb].
    unfold setupEffect, handleResize. rewrite Hcv, Hrect.
    cbn [initializePositions spring1Ref spring2Ref baseP1Ref baseP2Ref fps].
    repeat split; reflexivity.
  - intros [Hcloses|Hsame].
    + rewrite Hcloses. reflexivity.
    + rewrite Hsame. now rewrite andb_false_r.
Qed.

End Rerender.


Lemma handlePointerMove_centre_example :
  handlePointerMove hostR800 mountedR800 (0 + 800 / 2)%R (0 + 600 / 2)%R
  = mountedR800.
Proof.
  destruct (handlePointerMove_centre_is_neutral hostR800 mountedR800
              {| left := 0%R; top := 0%R; width := 800%R; height := 600%R |}
              (createSpringState (baseP1Ref mountedR800))
              (createSpringState (baseP2Ref mountedR800))
              eq_refl eq_refl eq_refl) as (_ & _ & Hsame).
  apply Hsame; reflexivity.
Defined.

(** The component at rest over frames at 17, 1017 and 1034 milliseconds:
    the frame at 1017 closes the first second of the meter with a count
    of 2, the displayed rate changes from 0, and the setup effect runs
    again. *)
Lemma run_idle_example :
  geometry (fst (run 200 hostR800 mountedR800 [17; 1017; 1034]%R)) =
    geometry mountedR800.
Proof.
  apply (run_idle 200 hostR800
           {| left := 0%R; top := 0%R; width := 800%R; height := 600%R |}
           (BezierCanvas 60%R) [17; 1017; 1034]%R).
  reflexivity.
Defined.

Lemma pulledR800_ready : ready hostR800 pulledR800.
Proof.
  split; [eexists; reflexivity|]. split; [reflexivity|].
  split; eexists; reflexivity.
Qed.

(** Spring 1 is under way; the first frame, at 1017 milliseconds, closes
    a second of the meter with a count of 1 while 0 is displayed: after
    it both springs are at rest on their bases and 1 is displayed. *)
Lemma fps_change_example :
  let st' := fst (run 200 hostR800 pulledR800 [1017%R]) in
  st' = handleResize hostR800 (fst (animate 200 hostR800 pulledR800 1017%R)) /\
  spring1Ref st' = Some (createSpringState (baseP1Ref st')) /\
  spring2Ref st' = Some (createSpringState (baseP2Ref st')) /\
  fps st' = (0 + 1)%R.
Proof.
  destruct (fps_change_resets_the_springs 200 hostR800 pulledR800 1017%R
              {| left := 0%R; top := 0%R; width := 800%R; height := 600%R |}
              pulledR800_ready eq_refl) as [Hreset _].
  { apply Rltb_false. cbn. lra. }
  apply Hreset.
  - apply Rleb_true. cbn. lra.
  - destruct (Object_is (fpsCountRef pulledR800 + of_Z 1)%js (fps pulledR800))
      eqn:E; [|reflexivity].
    apply Object_is_R in E. cbn in E. lra.
Defined.
